(** * Chord progression analysis and the analysis pipeline

    A shallow embedding of [backend/app/services/chord_analyzer.py],
    [backend/app/services/whisper_transcription.py],
    [backend/app/services/audio_analyzer.py],
    [backend/app/services/google_drive.py] and the two analysis routes of
    [backend/app/routers/analysis.py], and the properties of the run-length
    merge of frame labels, of the chord statistics, of the failure policy
    of the pipeline, of the file IDs and of the routes. *)

From Stdlib Require Import ZArith Floats Uint63 Lia Ascii String.
From stdpp Require Import base option list strings gmap.

Set Warnings "-inexact-float".
Local Open Scope Z_scope.
Local Open Scope string_scope.
Local Open Scope list_scope.

(** ** Arithmetic on times

    The times and durations of the chord events are Python floats.  The
    code only divides a frame index by the frame rate, subtracts two times
    and writes the literals [0.5] and [0.85]; the embedding is written over
    these operations, and [binary64] is the arithmetic the code runs on.
    What is proved for every instance holds for [binary64]. *)

Class PyFloat (F : Type) := {
  float_of_int : Z -> F;       (* an int where a float is computed with *)
  fadd : F -> F -> F;          (* [x + y] *)
  fsub : F -> F -> F;          (* [x - y] *)
  fdiv : F -> F -> F;          (* [x / y] *)
  np_mean : list F -> F;       (* [float(np.mean(xs))] on a non-empty list *)
  lit_0_5 : F;                 (* the literal [0.5] *)
  lit_0_85 : F                 (* the literal [0.85] *)
}.

Section Literals.
Context {F : Type} `{PyFloat F}.

(** [a / b] on two Python ints, for ints that a float holds exactly
    (below 2^53, as the frame indices are). *)
Definition int_truediv (a b : Z) : F := fdiv (float_of_int a) (float_of_int b).

(** The literal [0.0]. *)
Definition lit_0_0 : F := float_of_int 0.

(** [sum(xs)], which starts from the int [0]. *)
Definition py_sum (xs : list F) : F := fold_left fadd xs (float_of_int 0).
End Literals.

(** [float(z)] for an int that a float holds exactly, [0 <= z < 2^53]: the
    frame indices, the lengths and the literal [0] are such ints. *)
Definition float_of_Z (z : Z) : float := PrimFloat.of_uint63 (Uint63.of_Z z).

(** IEEE 754 binary64, the arithmetic the code runs on.  The mean adds from
    left to right; the order in which numpy adds the elements of a long array
    is its own, and nothing below depends on it. *)
#[export] Instance binary64 : PyFloat float := {
  float_of_int := float_of_Z;
  fadd x y := (x + y)%float;
  fsub x y := (x - y)%float;
  fdiv x y := (x / y)%float;
  np_mean xs :=
    (fold_left PrimFloat.add xs 0 / float_of_Z (Z.of_nat (length xs)))%float;
  lit_0_5 := 0.5%float;
  lit_0_85 := 0.85%float
}.

(** ** chord_analyzer.py *)

(** One entry of [chords_data]: the dict with the keys ['time'], ['chord'],
    ['duration'] and ['confidence']. *)
Record ChordEvent (F : Type) := mkChordEvent {
  time : F;
  chord : string;
  duration : F;
  confidence : F
}.
Arguments mkChordEvent {F} _ _ _ _.
Arguments time {F} _.
Arguments chord {F} _.
Arguments duration {F} _.
Arguments confidence {F} _.

Definition CHORD_NAMES : list string :=
  ["C"; "C#"; "D"; "D#"; "E"; "F"; "F#"; "G"; "G#"; "A"; "A#"; "B"].

(** [self.fps = 10] *)
Definition fps : Z := 10.

(** [_get_chord_name].  Python's [%] with a positive divisor is [Z.modulo];
    the index [root] is then always inside [CHORD_NAMES]. *)
Definition _get_chord_name (chord_idx : Z) : string :=
  if decide (chord_idx = 24) then "N"
  else
    let root := chord_idx mod 12 in
    let quality := if decide (chord_idx < 12) then "maj" else "min" in
    nth (Z.to_nat root) CHORD_NAMES "" +:+ ":" +:+ quality.

Section Convert.
Context {F : Type} `{PyFloat F}.

(** The variables of the loop of [_detect_chords_madmom]:
    [chords_data], [prev_chord] ([None] before the first frame) and
    [prev_time]. *)
Definition loop_state : Type := list (ChordEvent F) * option string * F.

(** One frame whose time and label are already computed: the body of the
    loop below the two assignments to [time] and [chord_name]. *)
Definition merge_step (st : loop_state) (frame : F * string) : loop_state :=
  let '(chords_data, prev_chord, prev_time) := st in
  let '(time, chord_name) := frame in
  if decide (Some chord_name = prev_chord) then st
  else
    let chords_data' :=
      match prev_chord with
      | Some pc =>
          chords_data ++ [mkChordEvent prev_time pc (fsub time prev_time) lit_0_85]
      | None => chords_data
      end in
    (chords_data', Some chord_name, time).

(** One iteration of [for frame_idx, chord_idx in enumerate(chords)]. *)
Definition detect_step (st : loop_state) (item : nat * Z) : loop_state :=
  let '(frame_idx, chord_idx) := item in
  let time := int_truediv (Z.of_nat frame_idx) fps in
  let chord_name := _get_chord_name chord_idx in
  merge_step st (time, chord_name).

(** [# Add final chord] *)
Definition add_final (st : loop_state) : list (ChordEvent F) :=
  let '(chords_data, prev_chord, prev_time) := st in
  match prev_chord with
  | Some pc => chords_data ++ [mkChordEvent prev_time pc lit_0_5 lit_0_85]
  | None => chords_data
  end.

Definition enumerate {A : Type} (l : list A) : list (nat * A) :=
  imap (fun i x => (i, x)) l.

(** [_detect_chords_madmom] from [# Convert to structured format] on:
    [chords] is what the recognizer decoded, one class index a frame. *)
Definition convert_to_structured (chords : list Z) : list (ChordEvent F) :=
  add_final (fold_left detect_step (enumerate chords) ([], None, float_of_int 0)).

(** The same loop over frames that carry their time and label. *)
Definition merge_frames (frames : list (F * string)) : list (ChordEvent F) :=
  add_final (fold_left merge_step frames ([], None, float_of_int 0)).

(** The time and the label the loop computes for every frame. *)
Definition frame_labels (chords : list Z) : list (F * string) :=
  imap (fun i c => (int_truediv (Z.of_nat i) fps, _get_chord_name c)) chords.

(** A merged segment read as a frame: its start time and its label. *)
Definition as_frame (e : ChordEvent F) : F * string := (time e, chord e).

End Convert.

(** [str.split(":")]: the pieces between the colons, in order. *)
Fixpoint split_colon (s : string) : list string :=
  match s with
  | EmptyString => [""]
  | String c rest =>
      if decide (c = ":"%char) then "" :: split_colon rest
      else match split_colon rest with
           | piece :: pieces => String c piece :: pieces
           | [] => [String c ""]
           end
  end.

(** [transitions], a dict from the transition's text to its count. *)
Definition transition_key (from_chord to_chord : string) : string :=
  from_chord +:+ " -> " +:+ to_chord.

(** [for i in range(len(chord_sequence) - 1)]: every adjacent pair in order,
    [transitions[transition] = transitions.get(transition, 0) + 1]. *)
Fixpoint transitions_loop (chord_sequence : list string)
    (transitions : gmap string nat) : gmap string nat :=
  match chord_sequence with
  | from_chord :: (to_chord :: _) as rest =>
      let transition := transition_key from_chord to_chord in
      transitions_loop rest
        (<[transition := (default 0 (transitions !! transition) + 1)%nat]> transitions)
  | _ => transitions
  end.

(** [collections.Counter]: a dict, which keeps its keys in the order of
    their insertion. *)
Abbreviation Counter := (list (string * nat)) (only parsing).

Fixpoint counter_incr (k : string) (c : Counter) : Counter :=
  match c with
  | [] => [(k, 1%nat)]
  | (k', n) :: rest =>
      if decide (k = k') then (k', S n) :: rest else (k', n) :: counter_incr k rest
  end.

(** [Counter(chord_sequence)] *)
Definition Counter_of (chord_sequence : list string) : Counter :=
  fold_left (fun c k => counter_incr k c) chord_sequence [].

(** [most_common(1)]: [heapq.nlargest(1, ...)] is [max] by the count, and
    [max] keeps the first of the largest items it meets. *)
Definition keep_max (best : option (string * nat)) (item : string * nat)
    : option (string * nat) :=
  match best with
  | None => Some item
  | Some b => if decide (b.2 < item.2)%nat then Some item else Some b
  end.

Definition most_common_1 (c : Counter) : option (string * nat) :=
  fold_left keep_max c None.

(** [chord_counts.most_common(1)[0][0] if chord_counts else None] *)
Definition most_common_of (chord_sequence : list string) : option string :=
  fst <$> most_common_1 (Counter_of chord_sequence).

(** The key and mode estimate of [_analyze_chord_sequence]. *)
Definition estimate_key (most_common_chord : option string)
    : option string * option string :=
  match most_common_chord with
  | Some mc =>
      if decide (mc <> "" /\ mc <> "N") then
        match split_colon mc with
        | [root; quality] =>
            (Some root, Some (if decide (quality = "maj") then "major" else "minor"))
        | _ => (None, None)
        end
      else (None, None)
  | None => (None, None)
  end.

(** [app.models.ChordProgression].  [unique_chords] is [list(set(...))],
    whose order is the set's: it is kept as the set. *)
Record ChordProgression (F : Type) := mkChordProgression {
  chords : list (ChordEvent F);
  chord_sequence : list string;
  key : option string;
  mode : option string;
  unique_chords : gset string;
  chord_transitions : gmap string nat;
  most_common_chord : option string;
  analyzer_used : string;
  confidence_mean : option F
}.
Arguments mkChordProgression {F} _ _ _ _ _ _ _ _ _.
Arguments chords {F} _.
Arguments chord_sequence {F} _.
Arguments key {F} _.
Arguments mode {F} _.
Arguments unique_chords {F} _.
Arguments chord_transitions {F} _.
Arguments most_common_chord {F} _.
Arguments analyzer_used {F} _.
Arguments confidence_mean {F} _.

Section Analyze.
Context {F : Type} `{PyFloat F}.

(** [_analyze_chord_sequence], and the [ChordProgression] built from the
    dict it returns: a key the dict lacks leaves the field at its default. *)
Definition _analyze_chord_sequence (chords_data : list (ChordEvent F))
    : ChordProgression F :=
  match chords_data with
  | [] =>
      {| chords := []; chord_sequence := []; key := None; mode := None;
         unique_chords := ∅; chord_transitions := ∅;
         most_common_chord := None; analyzer_used := "madmom";
         confidence_mean := Some lit_0_0 |}
  | _ =>
      let chord_sequence := map chord chords_data in
      let unique_chords : gset string := list_to_set chord_sequence in
      let transitions := transitions_loop chord_sequence ∅ in
      let most_common_chord := most_common_of chord_sequence in
      let confidences := map confidence chords_data in
      let confidence_mean := np_mean confidences in
      let '(key, mode) := estimate_key most_common_chord in
      {| chords := chords_data; chord_sequence := chord_sequence;
         key := key; mode := mode;
         unique_chords := unique_chords; chord_transitions := transitions;
         most_common_chord := most_common_chord; analyzer_used := "madmom";
         confidence_mean := Some confidence_mean |}
  end.

(** The steps of [ChordAnalyzer.analyze] inside its [try], once the
    recognizer has decoded [chords]. *)
Definition summarize (chords : list Z) : ChordProgression F :=
  _analyze_chord_sequence (convert_to_structured chords).

End Analyze.

(** ** Exceptions, the external collaborators and the run's state *)

(** A raised exception: its class and its message. *)
Record exn := mkExn { exn_class : string; exn_msg : string }.

Inductive result (A : Type) : Type :=
  | Ok (a : A)
  | Raise (e : exn).
Arguments Ok {A} _.
Arguments Raise {A} _.

(** The value mutagen holds under a tag, as [str] renders it: a list of
    values or a single one. *)
Inductive TagValue :=
  | TagList (items : list string)
  | TagText (text : string).

(** A value of the [metadata] dict: a text, or the year as an int. *)
Inductive MetaValue :=
  | MetaStr (s : string)
  | MetaInt (n : Z).

(** One segment of the verbose answer of the transcription service. *)
Record WhisperSegment (F : Type) := mkWhisperSegment {
  seg_id : Z;
  seg_start : F;
  seg_end : F;
  seg_text : string;
  seg_confidence : option F;
  seg_no_speech_prob : option F
}.
Arguments mkWhisperSegment {F} _ _ _ _ _ _.
Arguments seg_id {F} _.
Arguments seg_start {F} _.
Arguments seg_end {F} _.
Arguments seg_text {F} _.
Arguments seg_confidence {F} _.
Arguments seg_no_speech_prob {F} _.

(** The answer of [client.audio.transcriptions.create]: [response.text],
    the [language] attribute when it has one, and [segments] when it has
    the attribute. *)
Record WhisperResponse (F : Type) := mkWhisperResponse {
  resp_text : string;
  resp_language : option string;
  resp_segments : option (list (WhisperSegment F))
}.
Arguments mkWhisperResponse {F} _ _ _.
Arguments resp_text {F} _.
Arguments resp_language {F} _.
Arguments resp_segments {F} _.

(** A feature set of librosa or essentia: named series, which the pipeline
    stores and never reads. *)
Definition FeatureSet (F : Type) : Type := list (string * list F).

(** What the collaborators of one process answer: the tag reader, the file
    system, the two feature extractors, the chord recognizer (the two madmom
    processors, one class index a frame), the transcription client, the
    clock, whose [n]-th reading is [time_time n], and pydantic, asked to
    validate a [str] for a field declared [int]: the int it reads in the
    text, or the [ValidationError] it raises. *)
Record World (F : Type) := mkWorld {
  MutagenFile : string -> result (option (gmap string TagValue));
  os_path_getsize : string -> result Z;
  librosa_extract_all_features : string -> result (FeatureSet F * F * Z);
  essentia_extract_all_features : string -> result (FeatureSet F);
  madmom_decode : string -> result (list Z);
  whisper_client : bool;
  whisper_create : string -> option string -> result (WhisperResponse F);
  time_time : nat -> F;
  pydantic_int : string -> result Z
}.
Arguments mkWorld {F} _ _ _ _ _ _ _ _ _.
Arguments MutagenFile {F} _ _.
Arguments os_path_getsize {F} _ _.
Arguments librosa_extract_all_features {F} _ _.
Arguments essentia_extract_all_features {F} _ _.
Arguments madmom_decode {F} _ _.
Arguments whisper_client {F} _.
Arguments whisper_create {F} _ _ _.
Arguments time_time {F} _ _.
Arguments pydantic_int {F} _ _.

(** The steps of [analyze_audio] that call a collaborator. *)
Inductive Stage :=
  | StageMetadata
  | StageFileSize
  | StageLibrosa
  | StageEssentia
  | StageChords
  | StageLyrics.

#[export] Instance Stage_eq_dec : EqDecision Stage.
Proof. solve_decision. Defined.

(** The state a run threads: the stages invoked so far, oldest first, and
    the number of readings of the clock. *)
Record RunState := mkRunState {
  invoked : list Stage;
  clock_reads : nat
}.

Definition initial_state : RunState := mkRunState [] 0.

(** A computation that may raise and that changes the run's state; the state
    survives an exception. *)
Definition M (A : Type) : Type := RunState -> result A * RunState.

#[export] Instance M_ret : MRet M := fun A a st => (Ok a, st).

#[export] Instance M_bind : MBind M := fun A B k m st =>
  match m st with
  | (Ok a, st') => k a st'
  | (Raise e, st') => (Raise e, st')
  end.

(** A collaborator's answer, taken as it is. *)
Definition lift {A : Type} (r : result A) : M A := fun st => (r, st).

(** [raise] *)
Definition raise {A : Type} (e : exn) : M A := lift (Raise e).

(** [try: body except Exception as e: handler e] *)
Definition try_except {A : Type} (body : M A) (handler : exn -> M A) : M A :=
  fun st =>
    match body st with
    | (Ok a, st') => (Ok a, st')
    | (Raise e, st') => handler e st'
    end.

(** Entering a stage. *)
Definition enter (s : Stage) : M unit := fun st =>
  (Ok (), mkRunState (invoked st ++ [s]) (clock_reads st)).

(** [time.time()] *)
Definition read_clock {F : Type} (w : World F) : M F := fun st =>
  (Ok (time_time w (clock_reads st)), mkRunState (invoked st) (S (clock_reads st))).

Section Services.
Context {F : Type} `{PyFloat F}.

(** The [ChordProgression] that [ChordAnalyzer.analyze] builds in its
    [except] branch; the fields it does not pass keep their defaults. *)
Definition error_progression : ChordProgression F :=
  {| chords := []; chord_sequence := []; key := None; mode := None;
     unique_chords := ∅; chord_transitions := ∅;
     most_common_chord := None; analyzer_used := "madmom";
     confidence_mean := None |}.

(** [_detect_chords_madmom]: the two madmom processors, then the loop. *)
Definition _detect_chords_madmom (w : World F) (audio_path : string)
    : result (list (ChordEvent F)) :=
  match madmom_decode w audio_path with
  | Ok chords => Ok (convert_to_structured chords)
  | Raise e => Raise e
  end.

(** [ChordAnalyzer.analyze] *)
Definition analyze (w : World F) (audio_path : string)
    : result (ChordProgression F) :=
  match _detect_chords_madmom w audio_path with
  | Ok chords_data => Ok (_analyze_chord_sequence chords_data)
  | Raise e => Ok error_progression
  end.

End Services.

(** ** whisper_transcription.py *)

(** [app.models.Lyrics] *)
Record Lyrics (F : Type) := mkLyrics {
  lyrics_text : option string;
  lyrics_language : option string;
  lyrics_segments : option (list (WhisperSegment F));
  lyrics_confidence : option F;
  model_used : string;
  processing_time : option F
}.
Arguments mkLyrics {F} _ _ _ _ _ _.
Arguments lyrics_text {F} _.
Arguments lyrics_language {F} _.
Arguments lyrics_segments {F} _.
Arguments lyrics_confidence {F} _.
Arguments model_used {F} _.
Arguments processing_time {F} _.

Section Whisper.
Context {F : Type} `{PyFloat F}.

(** From [# Extract transcription data] to the [Lyrics] returned. *)
Definition lyrics_of_response (response : WhisperResponse F)
    (processing_time : F) : Lyrics F :=
  let segments := default [] (resp_segments response) in
  let confidences := omap seg_confidence segments in
  let confidence :=
    match confidences with
    | [] => None
    | _ => Some (fdiv (py_sum confidences)
                      (float_of_int (Z.of_nat (length confidences))))
    end in
  {| lyrics_text := Some (resp_text response);
     lyrics_language := resp_language response;
     lyrics_segments := match segments with [] => None | _ => Some segments end;
     lyrics_confidence := confidence;
     model_used := "whisper-1";
     processing_time := Some processing_time |}.

(** [WhisperTranscriber.transcribe]: [None] without a client, and [None]
    from either [except] branch. *)
Definition transcribe (w : World F) (audio_path : string)
    (language : option string) : M (option (Lyrics F)) :=
  if whisper_client w then
    try_except
      (start_time ← read_clock w;
       response ← lift (whisper_create w audio_path language);
       end_time ← read_clock w;
       mret (Some (lyrics_of_response response (fsub end_time start_time))))
      (fun _ => mret None)
  else mret None.

End Whisper.

(** ** audio_analyzer.py *)

Definition copyright_tag (name : string) : string := String "169"%char name.

Definition tag_mapping : list (string * list string) :=
  [("title", ["TIT2"; "Title"; copyright_tag "nam"; "TITLE"]);
   ("artist", ["TPE1"; "Artist"; copyright_tag "ART"; "ARTIST"]);
   ("album", ["TALB"; "Album"; copyright_tag "alb"; "ALBUM"]);
   ("genre", ["TCON"; "Genre"; copyright_tag "gen"; "GENRE"]);
   ("year", ["TDRC"; "Date"; copyright_tag "day"; "DATE"])].

(** [str(value[0])] for a list, which raises on an empty one, and
    [str(value)] otherwise. *)
Definition str_of_tag (value : TagValue) : result string :=
  match value with
  | TagList [] => Raise (mkExn "IndexError" "list index out of range")
  | TagList (first :: _) => Ok first
  | TagText text => Ok text
  end.

(** The inner [for tag in possible_tags]: the first tag the file has. *)
Fixpoint first_tag (audio_file : gmap string TagValue) (possible_tags : list string)
    : option TagValue :=
  match possible_tags with
  | [] => None
  | tag :: rest =>
      match audio_file !! tag with
      | Some value => Some value
      | None => first_tag audio_file rest
      end
  end.

(** The outer [for key, possible_tags in tag_mapping.items()]; an exception
    leaves the dict as it is then. *)
Fixpoint read_tags (audio_file : gmap string TagValue)
    (mapping : list (string * list string)) (metadata : gmap string MetaValue)
    : gmap string MetaValue * option exn :=
  match mapping with
  | [] => (metadata, None)
  | (key, possible_tags) :: rest =>
      match first_tag audio_file possible_tags with
      | None => read_tags audio_file rest metadata
      | Some value =>
          match str_of_tag value with
          | Ok text => read_tags audio_file rest (<[key := MetaStr text]> metadata)
          | Raise e => (metadata, Some e)
          end
      end
  end.

Definition is_digit (c : ascii) : bool :=
  (48 <=? nat_of_ascii c)%nat && (nat_of_ascii c <=? 57)%nat.

(** [re.search(r'\d{4}', s)]: the leftmost four digits in a row. *)
Fixpoint search_4_digits (s : string) : option string :=
  match s with
  | EmptyString => None
  | String a rest =>
      match rest with
      | String b (String c (String d _)) =>
          if is_digit a && is_digit b && is_digit c && is_digit d
          then Some (String a (String b (String c (String d EmptyString))))
          else search_4_digits rest
      | _ => None
      end
  end.

(** [int] of a string of digits. *)
Fixpoint int_of_digits (acc : Z) (s : string) : Z :=
  match s with
  | EmptyString => acc
  | String c rest => int_of_digits (10 * acc + (Z.of_nat (nat_of_ascii c) - 48)) rest
  end.

(** [# Handle year specially] *)
Definition handle_year (metadata : gmap string MetaValue) : gmap string MetaValue :=
  match metadata !! "year" with
  | Some (MetaStr year_str) =>
      match search_4_digits year_str with
      | Some digits => <["year" := MetaInt (int_of_digits 0 digits)]> metadata
      | None => metadata
      end
  | _ => metadata
  end.

(** [os.path.basename]: what follows the last slash. *)
Fixpoint basename_from (acc p : string) : string :=
  match p with
  | EmptyString => acc
  | String c rest =>
      if decide (c = "/"%char) then basename_from "" rest
      else basename_from (acc +:+ String c "") rest
  end.

Definition basename (p : string) : string := basename_from "" p.

(** [app.models.AudioFeatures] *)
Record AudioFeatures (F : Type) := mkAudioFeatures {
  librosa : option (FeatureSet F);
  essentia : option (FeatureSet F);
  chord_progression : option (ChordProgression F);
  lyrics : option (Lyrics F)
}.
Arguments mkAudioFeatures {F} _ _ _ _.
Arguments librosa {F} _.
Arguments essentia {F} _.
Arguments chord_progression {F} _.
Arguments lyrics {F} _.

(** [app.models.MusicAnalysis], as [analyze_audio] fills it; [year] is
    declared [Optional[int]]. *)
Record MusicAnalysis (F : Type) := mkMusicAnalysis {
  filename : string;
  file_size : Z;
  audio_duration : F;
  sample_rate : Z;
  source : string;
  source_path : option string;
  title : option MetaValue;
  artist : option MetaValue;
  album : option MetaValue;
  genre : option MetaValue;
  year : option Z;
  features : AudioFeatures F;
  processing_time_total : option F
}.
Arguments mkMusicAnalysis {F} _ _ _ _ _ _ _ _ _ _ _ _ _.
Arguments filename {F} _.
Arguments file_size {F} _.
Arguments audio_duration {F} _.
Arguments sample_rate {F} _.
Arguments source {F} _.
Arguments source_path {F} _.
Arguments title {F} _.
Arguments artist {F} _.
Arguments album {F} _.
Arguments genre {F} _.
Arguments year {F} _.
Arguments features {F} _.
Arguments processing_time_total {F} _.

Section Orchestrator.
Context {F : Type} `{PyFloat F}.

(** [AudioAnalyzer._extract_metadata]: it returns the dict whatever
    happens. *)
Definition _extract_metadata (w : World F) (audio_path : string)
    : gmap string MetaValue :=
  match MutagenFile w audio_path with
  | Ok (Some audio_file) =>
      match read_tags audio_file tag_mapping ∅ with
      | (metadata, None) => handle_year metadata
      | (metadata, Some _) => metadata
      end
  | Ok None => ∅
  | Raise _ => ∅
  end.

(** The validation of [year=metadata.get('year')] when the record is
    built: an absent year and an int pass, a year left as a text is read as
    an int or refused.  The other arguments have their declared types. *)
Definition validate_year (w : World F) (year : option MetaValue)
    : result (option Z) :=
  match year with
  | None => Ok None
  | Some (MetaInt n) => Ok (Some n)
  | Some (MetaStr text) =>
      match pydantic_int w text with
      | Ok n => Ok (Some n)
      | Raise e => Raise e
      end
  end.

(** The body of the [try] of [analyze_audio]: the features and, from the
    first extractor, the duration and the sample rate. *)
Definition extract_features (w : World F) (audio_path : string)
    (extract_lyrics : bool) : M (AudioFeatures F * F * Z) :=
  _ ← enter StageLibrosa;
  '(librosa_features, duration, sample_rate) ←
    lift (librosa_extract_all_features w audio_path);
  _ ← enter StageEssentia;
  essentia_features ← lift (essentia_extract_all_features w audio_path);
  _ ← enter StageChords;
  chord_progression ← lift (analyze w audio_path);
  lyrics ← (if extract_lyrics
            then _ ← enter StageLyrics; transcribe w audio_path None
            else mret None);
  mret ({| librosa := Some librosa_features;
           essentia := Some essentia_features;
           chord_progression := Some chord_progression;
           lyrics := lyrics |}, duration, sample_rate).

(** [AudioAnalyzer.analyze_audio] *)
Definition analyze_audio (w : World F) (audio_path source : string)
    (source_path : option string) (extract_lyrics : bool)
    : M (MusicAnalysis F) :=
  start_time ← read_clock w;
  _ ← enter StageMetadata;
  let metadata := _extract_metadata w audio_path in
  let filename := basename audio_path in
  _ ← enter StageFileSize;
  file_size ← lift (os_path_getsize w audio_path);
  '(audio_features, duration, sample_rate) ←
    try_except (extract_features w audio_path extract_lyrics)
               (fun e => raise e);
  end_time ← read_clock w;
  let processing_time_total := fsub end_time start_time in
  validated_year ← lift (validate_year w (metadata !! "year"));
  mret {| filename := filename;
          file_size := file_size;
          audio_duration := duration;
          sample_rate := sample_rate;
          source := source;
          source_path := source_path;
          title := metadata !! "title";
          artist := metadata !! "artist";
          album := metadata !! "album";
          genre := metadata !! "genre";
          year := validated_year;
          features := audio_features;
          processing_time_total := Some processing_time_total |}.

(** A run from a fresh state. *)
Definition run_analysis (w : World F) (audio_path source : string)
    (source_path : option string) (extract_lyrics : bool)
    : result (MusicAnalysis F) * RunState :=
  analyze_audio w audio_path source source_path extract_lyrics initial_state.

End Orchestrator.

(** ** The vocabulary of the properties *)

(** The closed set of labels: no chord, twelve major and twelve minor
    triads. *)
Definition vocabulary : list string :=
  "N" :: ((fun root => root +:+ ":maj") <$> CHORD_NAMES)
      ++ ((fun root => root +:+ ":min") <$> CHORD_NAMES).

(** The frames at which a segment starts: every frame whose label differs
    from the label of the frame before it ([prev]; [None] before the first
    frame). *)
Fixpoint change_points {F : Type} (prev : option string)
    (frames : list (F * string)) : list (F * string) :=
  match frames with
  | [] => []
  | (t, l) :: rest =>
      if decide (Some l = prev) then change_points (Some l) rest
      else (t, l) :: change_points (Some l) rest
  end.

Section Segments.
Context {F : Type} `{PyFloat F}.

(** The events of the frames that follow the start of a segment at time
    [t] with the label [l], written by recursion on the frames. *)
Fixpoint segments_from (t : F) (l : string) (frames : list (F * string))
    : list (ChordEvent F) :=
  match frames with
  | [] => [mkChordEvent t l lit_0_5 lit_0_85]
  | (t', l') :: rest =>
      if decide (l' = l) then segments_from t l rest
      else mkChordEvent t l (fsub t' t) lit_0_85 :: segments_from t' l' rest
  end.

(** A sequence of segments as a merge leaves it: neighbouring segments
    carry distinct labels, a segment lasts from its start to the start of
    the next one, the last one lasts the constant [0.5], and every segment
    has the confidence [0.85]. *)
Fixpoint already_merged (segments : list (ChordEvent F)) : Prop :=
  match segments with
  | [] => True
  | e :: rest =>
      confidence e = lit_0_85
      /\ match rest with
         | [] => duration e = lit_0_5
         | e' :: _ => chord e <> chord e' /\ duration e = fsub (time e') (time e)
         end
      /\ already_merged rest
  end.

(** Segments of which no two neighbours carry the same label. *)
Fixpoint distinct_neighbours (segments : list (ChordEvent F)) : Prop :=
  match segments with
  | e :: (e' :: _) as rest => chord e <> chord e' /\ distinct_neighbours rest
  | _ => True
  end.

(** The differences of neighbouring times, each time subtracted from the
    one after it. *)
Fixpoint differences (times : list F) : list F :=
  match times with
  | t :: (t' :: _) as rest => fsub t' t :: differences rest
  | _ => []
  end.

(** [sum(event.duration)] over the events. *)
Definition total_duration (events : list (ChordEvent F)) : F :=
  py_sum (map duration events).

(** The time the frames span, one frame period for each frame. *)
Definition spanned_duration (chords : list Z) : F :=
  int_truediv (Z.of_nat (length chords)) fps.

(** The time of the last frame. *)
Definition last_frame_time (chords : list Z) : F :=
  int_truediv (Z.of_nat (length chords) - 1) fps.

(** One frame period, [1 / fps]. *)
Definition frame_period : F := int_truediv 1 fps.
End Segments.

(** [sum(transitions.values())] *)
Definition sum_counts (transitions : gmap string nat) : nat :=
  sum_list (snd <$> map_to_list transitions).

(** How often a label occurs in a sequence, and the index of its first
    occurrence. *)
Definition occurrences (c : string) (seq : list string) : nat :=
  length (filter (fun x => x = c) seq).

Fixpoint first_occurrence (c : string) (seq : list string) : option nat :=
  match seq with
  | [] => None
  | x :: rest => if decide (x = c) then Some 0%nat else S <$> first_occurrence c rest
  end.

(** The keys of a counter, in its order. *)
Definition counter_keys (c : Counter) : list string := fst <$> c.

(** The count a counter holds for a key, [0] for a key it lacks. *)
Fixpoint counter_get (k : string) (c : Counter) : nat :=
  match c with
  | [] => 0%nat
  | (k', n) :: rest => if decide (k = k') then n else counter_get k rest
  end.

(** The decoded frames of the worked example: two frames of C major
    (class 0), then three of G major (class 7). *)
Definition example_chords : list Z := [0; 0; 7; 7; 7].

(** Twenty frames, two seconds, of C major. *)
Definition held_chord : list Z := replicate 20 0.

(** The events the worked example is said to give: the second one lasting
    [0.3]. *)
Definition example_events_claimed : list (ChordEvent float) :=
  [mkChordEvent 0%float "C:maj" 0.2%float 0.85%float;
   mkChordEvent 0.2%float "G:maj" 0.3%float 0.85%float].

(** The keys [ks] come in the order in which the sequence first shows
    them. *)
Definition first_seen_order (seq ks : list string) : Prop :=
  forall p q k1 k2,
    ks !! p = Some k1 -> ks !! q = Some k2 -> (p < q)%nat ->
    exists i j, first_occurrence k1 seq = Some i
                /\ first_occurrence k2 seq = Some j /\ (i < j)%nat.

(** A string of digits only. *)
Fixpoint all_digits (s : string) : bool :=
  match s with
  | EmptyString => true
  | String c rest => is_digit c && all_digits rest
  end.

(** A validation that reads the texts made of digits and refuses every
    other text. *)
Definition digits_or_refuse (text : string) : result Z :=
  if negb (String.eqb text "") && all_digits text then Ok (int_of_digits 0 text)
  else Raise (mkExn "ValidationError"
                    "Input should be a valid integer, unable to parse string as an integer").

(** A process in which every collaborator answers, except the
    transcription service, which refuses the request. *)
Definition studio : World float :=
  {| MutagenFile := fun _ => Ok (Some {["TIT2" := TagText "Song"; "TDRC" := TagList ["2019-05-01"]]});
     os_path_getsize := fun _ => Ok 1024;
     librosa_extract_all_features := fun _ => Ok ([("tempo", [120%float])], 0.5%float, 22050);
     essentia_extract_all_features := fun _ => Ok [("bpm", [120%float])];
     madmom_decode := fun _ => Ok example_chords;
     whisper_client := true;
     whisper_create := fun _ _ => Raise (mkExn "APIError" "rate limit reached");
     time_time := fun n => float_of_Z (Z.of_nat n);
     pydantic_int := digits_or_refuse |}.

(** The same process with a recognizer that cannot load its model. *)
Definition studio_without_recognizer : World float :=
  {| MutagenFile := MutagenFile studio;
     os_path_getsize := os_path_getsize studio;
     librosa_extract_all_features := librosa_extract_all_features studio;
     essentia_extract_all_features := essentia_extract_all_features studio;
     madmom_decode := fun _ => Raise (mkExn "IOError" "model file not found");
     whisper_client := whisper_client studio;
     whisper_create := whisper_create studio;
     time_time := time_time studio;
     pydantic_int := pydantic_int studio |}.

(** The same process with a file the first extractor cannot decode. *)
Definition studio_with_bad_file : World float :=
  {| MutagenFile := MutagenFile studio;
     os_path_getsize := os_path_getsize studio;
     librosa_extract_all_features :=
       fun _ => Raise (mkExn "NoBackendError" "cannot decode");
     essentia_extract_all_features := essentia_extract_all_features studio;
     madmom_decode := madmom_decode studio;
     whisper_client := whisper_client studio;
     whisper_create := whisper_create studio;
     time_time := time_time studio;
     pydantic_int := pydantic_int studio |}.

(** The same process with a file whose date frame holds a text without
    four digits in a row. *)
Definition undated_tags : gmap string TagValue :=
  {["TIT2" := TagText "Song"; "TDRC" := TagList ["unknown"]]}.

Definition studio_with_undated_file : World float :=
  {| MutagenFile := fun _ => Ok (Some undated_tags);
     os_path_getsize := os_path_getsize studio;
     librosa_extract_all_features := librosa_extract_all_features studio;
     essentia_extract_all_features := essentia_extract_all_features studio;
     madmom_decode := madmom_decode studio;
     whisper_client := whisper_client studio;
     whisper_create := whisper_create studio;
     time_time := time_time studio;
     pydantic_int := pydantic_int studio |}.

(** ** The rest of chord_analyzer.py *)

(** [_estimate_key_from_chords]: [(None, None)] for an empty counter, for
    the label ["N"] and for a label that does not split into two parts at
    the colon. *)
Definition _estimate_key_from_chords (chord_sequence : list string)
    : option string * option string :=
  match Counter_of chord_sequence with
  | [] => (None, None)
  | chord_counts =>
      match most_common_1 chord_counts with
      | Some (most_common, _) =>
          if decide (most_common = "N") then (None, None)
          else
            match split_colon most_common with
            | [root; quality] =>
                (Some root, Some (if decide (quality = "maj") then "major" else "minor"))
            | _ => (None, None)
            end
      | None => (None, None)
      end
  end.

(** How many adjacent pairs of a sequence have the transition text [k]. *)
Fixpoint transition_occurrences (k : string) (seq : list string) : nat :=
  match seq with
  | from_chord :: (to_chord :: _) as rest =>
      ((if decide (transition_key from_chord to_chord = k) then 1 else 0)
       + transition_occurrences k rest)%nat
  | _ => 0%nat
  end.

(** ** The rest of whisper_transcription.py *)

(** The dict that [transcribe_with_translation] returns. *)
Record Translated (F : Type) := mkTranslated {
  transcription : option (Lyrics F);
  translation : string
}.
Arguments mkTranslated {F} _ _.
Arguments transcription {F} _.
Arguments translation {F} _.

Section Translation.
Context {F : Type} `{PyFloat F}.

(** [WhisperTranscriber.transcribe_with_translation];
    [translations_create] is the answer of [open] and of
    [client.audio.translations.create] for the path, the English text. *)
Definition transcribe_with_translation (w : World F)
    (translations_create : string -> result string) (audio_path : string)
    : M (option (Translated F)) :=
  if whisper_client w then
    try_except
      (transcription ← transcribe w audio_path None;
       translation_response ← lift (translations_create audio_path);
       mret (Some {| transcription := transcription;
                     translation := translation_response |}))
      (fun _ => mret None)
  else mret None.

End Translation.

(** ** google_drive.py *)

(** [sub in s] *)
Fixpoint contains (sub s : string) : bool :=
  String.prefix sub s
  || match s with
     | EmptyString => false
     | String _ rest => contains sub rest
     end.

(** [s.split(sep)] for a non-empty [sep], from left to right; [skip]
    counts the characters of a separator still to pass over. *)
Fixpoint split_from (sep : string) (skip : nat) (s : string) : list string :=
  match s with
  | EmptyString => [""]
  | String c rest =>
      match skip with
      | S k => split_from sep k rest
      | O =>
          if String.prefix sep s
          then "" :: split_from sep (String.length sep - 1) rest
          else match split_from sep 0 rest with
               | piece :: pieces => String c piece :: pieces
               | [] => [String c ""]
               end
      end
  end.

Definition py_split (sep s : string) : list string := split_from sep 0 s.

(** [s.split(sep1)[1].split(sep2)[0]], [None] for an [IndexError]. *)
Definition second_then_first (sep1 sep2 s : string) : option string :=
  match py_split sep1 s !! 1%nat with
  | Some piece => py_split sep2 piece !! 0%nat
  | None => None
  end.

(** [GoogleDriveService.extract_file_id_from_url] *)
Definition extract_file_id_from_url (url : string) : option string :=
  if decide (url = "") then None
  else if negb (contains "/" url) && negb (contains "?" url)
          && bool_decide (String.length url < 50)%nat
  then Some url
  else
    let from_path :=
      if contains "/file/d/" url then second_then_first "/file/d/" "/" url
      else None in
    match from_path with
    | Some file_id => Some file_id
    | None =>
        if contains "id=" url then second_then_first "id=" "&" url else None
    end.

(** A string none of whose characters is [c]. *)
Fixpoint lacks (c : ascii) (s : string) : Prop :=
  match s with
  | EmptyString => True
  | String c' rest => c' <> c /\ lacks c rest
  end.

(** A process whose transcription service answers with one segment that
    carries no confidence. *)
Definition studio_with_lyrics : World float :=
  {| MutagenFile := MutagenFile studio;
     os_path_getsize := os_path_getsize studio;
     librosa_extract_all_features := librosa_extract_all_features studio;
     essentia_extract_all_features := essentia_extract_all_features studio;
     madmom_decode := madmom_decode studio;
     whisper_client := true;
     whisper_create := fun _ _ =>
       Ok {| resp_text := "la la la"; resp_language := Some "english";
             resp_segments :=
               Some [mkWhisperSegment 0 0%float 2%float "la la la" None
                                      (Some 0.1%float)] |};
     time_time := time_time studio;
     pydantic_int := pydantic_int studio |}.

(** The text [str] gives for a tag value that does not raise. *)
Definition tag_text (value : TagValue) : option string :=
  match value with
  | TagList (first :: _) => Some first
  | TagList [] => None
  | TagText text => Some text
  end.

(** The tags of the file of [studio]. *)
Definition studio_tags : gmap string TagValue :=
  {["TIT2" := TagText "Song"; "TDRC" := TagList ["2019-05-01"]]}.

(** Tags with an artist frame that holds no value, and an album. *)
Definition tags_with_empty_artist : gmap string TagValue :=
  {["TIT2" := TagText "Song"; "TPE1" := TagList []; "TALB" := TagText "Album"]}.

Definition studio_with_empty_artist : World float :=
  {| MutagenFile := fun _ => Ok (Some tags_with_empty_artist);
     os_path_getsize := os_path_getsize studio;
     librosa_extract_all_features := librosa_extract_all_features studio;
     essentia_extract_all_features := essentia_extract_all_features studio;
     madmom_decode := madmom_decode studio;
     whisper_client := whisper_client studio;
     whisper_create := whisper_create studio;
     time_time := time_time studio;
     pydantic_int := pydantic_int studio |}.

(** ** routers/analysis.py: the upload route *)

(** [str.lower] on a character below 256: the letters [A]-[Z] and the
    accented capitals [192]-[222] but the sign [215] move up by 32. *)
Definition char_lower (c : ascii) : ascii :=
  let n := nat_of_ascii c in
  if ((65 <=? n) && (n <=? 90) || (192 <=? n) && (n <=? 222) && negb (n =? 215))%nat
  then ascii_of_nat (n + 32) else c.

Fixpoint lower (s : string) : string :=
  match s with
  | EmptyString => ""
  | String c rest => String (char_lower c) (lower rest)
  end.



(** [os.path.join(a, b)] *)
Definition path_join (a b : string) : string :=
  if String.prefix "/" b then b
  else if decide (a = "") then b
  else if String.prefix "/" (String.substring (String.length a - 1) 1 a) then a +:+ b
  else a +:+ "/" +:+ b.

Definition allowed_extensions : list string :=
  [".mp3"; ".wav"; ".flac"; ".m4a"; ".ogg"; ".aac"; ".wma"].


(** [fastapi.HTTPException] *)
Record HTTPException := mkHTTPException { status_code : Z; detail : string }.

(** How a route ends: with its response, with an [HTTPException], or with
    another exception that leaves it. *)
Inductive outcome (A : Type) : Type :=
  | Responded (a : A)
  | HttpError (h : HTTPException)
  | Uncaught (e : exn).
Arguments Responded {A} _.
Arguments HttpError {A} _.
Arguments Uncaught {A} _.

(** What the routes change: the files that exist, the documents of the
    collection and the clean-up tasks handed to the background. *)
Record Server (F : Type) := mkServer {
  files : gset string;
  documents : list (MusicAnalysis F);
  background : list string
}.
Arguments mkServer {F} _ _ _.
Arguments files {F} _.
Arguments documents {F} _.
Arguments background {F} _.


(** The dict a route returns. *)
Record AnalysisResponse (F : Type) := mkAnalysisResponse {
  response_status : string;
  response_message : string;
  response_analysis_id : string;
  response_filename : string;
  response_duration : F;
  response_processing_time : option F
}.
Arguments mkAnalysisResponse {F} _ _ _ _ _ _.
Arguments response_status {F} _.
Arguments response_message {F} _.
Arguments response_analysis_id {F} _.
Arguments response_filename {F} _.
Arguments response_duration {F} _.
Arguments response_processing_time {F} _.

Section UploadRoute.
Context {F : Type} `{PyFloat F}.




End UploadRoute.

(** ** google_drive.py and the Google Drive route *)

(** [name.endswith(ext)] *)
Definition ends_with (ext name : string) : bool :=
  bool_decide (String.length ext <= String.length name)%nat
  && String.eqb (String.substring (String.length name - String.length ext)
                                  (String.length ext) name) ext.

(** What Google Drive answers during one request: whether the service was
    built, the [n]-th [files().get(...).execute()] of the request for a file
    ID (the metadata, of which the routes read two texts), the opening of
    the destination by [io.FileIO], and the loop over
    [downloader.next_chunk()]. *)
Record Drive := mkDrive {
  drive_service : bool;
  files_get : nat -> string -> result (gmap string string);
  file_io : string -> result unit;
  next_chunks : result unit
}.

(** [GoogleDriveService.get_file_metadata], at the [n]-th call of the API. *)
Definition get_file_metadata (d : Drive) (n : nat) (file_id : string)
    : option (gmap string string) :=
  if drive_service d then
    match files_get d n file_id with
    | Ok file_metadata => Some file_metadata
    | Raise _ => None
    end
  else None.

(** [not metadata]: [None] and the empty dict. *)
Definition no_metadata (metadata : option (gmap string string)) : bool :=
  match metadata with
  | Some m => bool_decide (m = ∅)
  | None => true
  end.

(** [GoogleDriveService.is_audio_file] *)
Definition is_audio_file (d : Drive) (n : nat) (file_id : string) : bool :=
  let metadata := get_file_metadata d n file_id in
  if no_metadata metadata then false
  else
    let m := default ∅ metadata in
    let mime_type := default "" (m !! "mimeType") in
    let name := lower (default "" (m !! "name")) in
    if String.prefix "audio/" mime_type then true
    else existsb (fun ext => ends_with ext name) allowed_extensions.

(** One request to the Google Drive route. *)
Record DriveRequest := mkDriveRequest {
  file_url : string;
  request_upload_dir : string;
  request_makedirs : result unit;
  request_timestamp : string;
  request_insert : result string;
  request_background_tasks : bool
}.

Section DriveRoute.
Context {F : Type} `{PyFloat F}.

(** [GoogleDriveService.download_file], at the [n]-th call of the API:
    whether it succeeded, and the files afterwards. *)
Definition download_file (d : Drive) (n : nat) (file_id destination_path : string)
    (sv : Server F) : bool * Server F :=
  if drive_service d then
    match files_get d n file_id with
    | Raise _ => (false, sv)
    | Ok _ =>
        match file_io d destination_path with
        | Raise _ => (false, sv)
        | Ok _ =>
            let opened := mkServer ({[destination_path]} ∪ files sv) (documents sv)
                                   (background sv) in
            match next_chunks d with
            | Raise _ => (false, opened)
            | Ok _ => (true, opened)
            end
        end
    end
  else (false, sv).

(** [analyze_from_google_drive] from [# Create upload directory] on, for
    the file ID and the name of the file. *)
Definition drive_attempt (w : World F) (d : Drive) (rq : DriveRequest)
    (extract_lyrics : bool) (file_id filename : string) (sv : Server F)
    : outcome (AnalysisResponse F) * Server F :=
  match request_makedirs rq with
  | Raise e => (Uncaught e, sv)
  | Ok _ =>
      let temp_path :=
        path_join (request_upload_dir rq) (request_timestamp rq +:+ "_" +:+ filename) in
      let '(success, downloaded) := download_file d 2 file_id temp_path sv in
      let failed (e : exn) :=
        (HttpError (mkHTTPException 500 ("Analysis failed: " +:+ exn_msg e)),
         mkServer (files downloaded ∖ {[temp_path]}) (documents downloaded)
                  (background downloaded)) in
      if success then
        match (run_analysis w temp_path "google_drive" (Some (file_url rq))
                            extract_lyrics).1 with
        | Raise e => failed e
        | Ok analysis =>
            match request_insert rq with
            | Raise e => failed e
            | Ok analysis_id =>
                (Responded
                   {| response_status := "success";
                      response_message :=
                        "Audio analysis from Google Drive completed successfully";
                      response_analysis_id := analysis_id;
                      response_filename := filename;
                      response_duration := audio_duration analysis;
                      response_processing_time := processing_time_total analysis |},
                 mkServer (files downloaded) (documents downloaded ++ [analysis])
                          (if request_background_tasks rq
                           then background downloaded ++ [temp_path]
                           else background downloaded))
            end
        end
      else
        (HttpError (mkHTTPException 500 "Failed to download file from Google Drive"),
         downloaded)
  end.

(** [analyze_from_google_drive] *)
Definition analyze_from_google_drive (w : World F) (d : Drive) (rq : DriveRequest)
    (extract_lyrics : bool) (sv : Server F)
    : outcome (AnalysisResponse F) * Server F :=
  match extract_file_id_from_url (file_url rq) with
  | Some file_id =>
      if decide (file_id = "") then
        (HttpError (mkHTTPException 400 "Invalid Google Drive URL or file ID"), sv)
      else if is_audio_file d 0 file_id then
        let metadata := get_file_metadata d 1 file_id in
        if no_metadata metadata then
          (HttpError (mkHTTPException 404 "File not found or inaccessible"), sv)
        else
          let filename :=
            default (file_id +:+ ".audio") (default ∅ metadata !! "name") in
          drive_attempt w d rq extract_lyrics file_id filename sv
      else (HttpError (mkHTTPException 400 "File is not an audio file"), sv)
  | None => (HttpError (mkHTTPException 400 "Invalid Google Drive URL or file ID"), sv)
  end.

End DriveRoute.

(** A download that is interrupted: Google Drive answers the reads of the
    metadata and the destination opens, then [next_chunk] raises. *)
Definition drive_interrupted : Drive :=
  {| drive_service := true;
     files_get := fun _ _ => Ok {["mimeType" := "audio/mpeg"; "name" := "song.mp3"]};
     file_io := fun _ => Ok ();
     next_chunks := Raise (mkExn "HttpError" "connection reset") |}.

Definition drive_request : DriveRequest :=
  {| file_url := "https://drive.google.com/file/d/1AbC_dEf-9/view";
     request_upload_dir := "/tmp/music_uploads";
     request_makedirs := Ok ();
     request_timestamp := "1700000000.5";
     request_insert := Ok "65f0c0ffee";
     request_background_tasks := true |}.

(** ** The run-length merge *)

Section MergeFacts.
Context {F : Type} `{PyFloat F}.

Lemma fold_left_fmap {A B C : Type} (f : A -> B -> A) (g : C -> B)
    (l : list C) (a : A) :
  fold_left f (g <$> l) a = fold_left (fun a x => f a (g x)) l a.
Proof. revert a. induction l as [|x l IH]; intros a; simpl; [done|]. apply IH. Qed.

Lemma fold_left_pointwise {A B : Type} (f g : A -> B -> A) (l : list B) (a : A) :
  (forall a x, f a x = g a x) -> fold_left f l a = fold_left g l a.
Proof.
  intros Hfg. revert a. induction l as [|x l IH]; intros a; simpl; [done|].
  rewrite Hfg. apply IH.
Qed.

(** The loop of the code is the merge of the frames it computes. *)
Lemma convert_to_structured_merge (chords : list Z) :
  convert_to_structured chords = merge_frames (frame_labels chords).
Proof.
  unfold convert_to_structured, merge_frames, frame_labels, enumerate.
  f_equal.
  replace (imap (fun i c => (int_truediv (Z.of_nat i) fps, _get_chord_name c)) chords)
    with ((fun item : nat * Z =>
             (int_truediv (Z.of_nat item.1) fps, _get_chord_name item.2))
            <$> imap (fun i x => (i, x)) chords).
  - rewrite fold_left_fmap. apply fold_left_pointwise. intros st [i c]. reflexivity.
  - rewrite fmap_imap. reflexivity.
Qed.

Lemma merge_step_same (acc : list (ChordEvent F)) (t t' : F) (l : string) :
  merge_step (acc, Some l, t) (t', l) = (acc, Some l, t).
Proof. unfold merge_step. rewrite decide_True; done. Qed.

Lemma merge_step_change (acc : list (ChordEvent F)) (t t' : F) (l l' : string) :
  l' <> l ->
  merge_step (acc, Some l, t) (t', l')
  = (acc ++ [mkChordEvent t l (fsub t' t) lit_0_85], Some l', t').
Proof. intros Hne. unfold merge_step. rewrite decide_False; [done|congruence]. Qed.

(** The loop from inside a segment, in one equation. *)
Lemma fold_merge_step_segments (frames : list (F * string))
    (acc : list (ChordEvent F)) (t : F) (l : string) :
  add_final (fold_left merge_step frames (acc, Some l, t))
  = acc ++ segments_from t l frames.
Proof.
  revert acc t l. induction frames as [|[t' l'] frames IH]; intros acc t l.
  - reflexivity.
  - cbn [fold_left segments_from]. destruct (decide (l' = l)) as [->|Hne].
    + rewrite merge_step_same. apply IH.
    + rewrite merge_step_change by done. rewrite IH, <- app_assoc. reflexivity.
Qed.

Lemma merge_frames_nil : merge_frames (F:=F) [] = [].
Proof. reflexivity. Qed.

Lemma merge_frames_cons (t : F) (l : string) (frames : list (F * string)) :
  merge_frames ((t, l) :: frames) = segments_from t l frames.
Proof.
  unfold merge_frames. cbn [fold_left].
  change (merge_step ([], None, float_of_int 0) (t, l)) with
    (([] : list (ChordEvent F)), Some l, t).
  apply fold_merge_step_segments.
Qed.

End MergeFacts.

Section MergeProperties.
Context {F : Type} `{PyFloat F}.

Lemma segments_from_head (t : F) (l : string) (frames : list (F * string)) :
  exists e rest, segments_from t l frames = e :: rest /\ time e = t /\ chord e = l.
Proof.
  revert t l. induction frames as [|[t' l'] frames IH]; intros t l; cbn [segments_from].
  - eauto.
  - destruct (decide (l' = l)); [apply IH | eauto].
Qed.

Lemma segments_from_change_points (t : F) (l : string) (frames : list (F * string)) :
  as_frame <$> segments_from t l frames = (t, l) :: change_points (Some l) frames.
Proof.
  revert t l. induction frames as [|[t' l'] frames IH]; intros t l;
    cbn [segments_from change_points].
  - reflexivity.
  - destruct (decide (l' = l)) as [->|Hne].
    + rewrite decide_True by done. apply IH.
    + rewrite decide_False by congruence. cbn [fmap list_fmap].
      rewrite <- IH. reflexivity.
Qed.

Lemma segments_from_durations (t : F) (l : string) (frames : list (F * string))
    (i : nat) (e e' : ChordEvent F) :
  segments_from t l frames !! i = Some e ->
  segments_from t l frames !! S i = Some e' ->
  duration e = fsub (time e') (time e).
Proof.
  revert t l i. induction frames as [|[t' l'] frames IH]; intros t l i;
    cbn [segments_from].
  - destruct i; discriminate.
  - destruct (decide (l' = l)) as [->|Hne]; [apply IH|].
    destruct i as [|i]; cbn [lookup list_lookup].
    + intros [= <-] He'.
      destruct (segments_from_head t' l' frames) as (e0 & rest & Heq & Ht & _).
      rewrite Heq in He'. injection He' as <-. rewrite Ht. reflexivity.
    + apply IH.
Qed.

Lemma segments_from_last (t : F) (l : string) (frames : list (F * string))
    (e : ChordEvent F) :
  last (segments_from t l frames) = Some e -> duration e = lit_0_5.
Proof.
  revert t l. induction frames as [|[t' l'] frames IH]; intros t l;
    cbn [segments_from].
  - intros [= <-]. reflexivity.
  - destruct (decide (l' = l)); [apply IH|].
    destruct (segments_from_head t' l' frames) as (e0 & rest & Heq & _).
    rewrite Heq, last_cons_cons, <- Heq. apply IH.
Qed.

Lemma segments_from_confidence (t : F) (l : string) (frames : list (F * string)) :
  Forall (fun e => confidence e = lit_0_85) (segments_from t l frames).
Proof.
  revert t l. induction frames as [|[t' l'] frames IH]; intros t l;
    cbn [segments_from].
  - repeat constructor.
  - destruct (decide (l' = l)); [apply IH|]. constructor; [reflexivity | apply IH].
Qed.

(** C5: the merge starts a segment at the first frame and at every frame
    whose label differs from the label of the frame before it, and nowhere
    else; a segment that is not the last lasts from its start to the start
    of the next one; the last segment lasts the constant [0.5]; every
    event has the confidence [0.85]. *)
Theorem run_length_merge_segments (chords : list Z) :
  let events := convert_to_structured chords in
  as_frame <$> events = change_points None (frame_labels chords)
  /\ (forall i e e', events !! i = Some e -> events !! S i = Some e' ->
        duration e = fsub (time e') (time e))
  /\ (forall e, last events = Some e -> duration e = lit_0_5)
  /\ Forall (fun e => confidence e = lit_0_85) events.
Proof.
  cbv zeta. rewrite convert_to_structured_merge.
  destruct (frame_labels chords) as [|[t l] frames].
  - rewrite merge_frames_nil. repeat split; try done.
  - rewrite merge_frames_cons. repeat split.
    + rewrite segments_from_change_points. cbn [change_points].
      rewrite decide_False by done. reflexivity.
    + intros i e e'. apply segments_from_durations.
    + intros e. apply segments_from_last.
    + apply segments_from_confidence.
Qed.

Lemma segments_from_distinct (t : F) (l : string) (frames : list (F * string))
    (i : nat) (e e' : ChordEvent F) :
  segments_from t l frames !! i = Some e ->
  segments_from t l frames !! S i = Some e' ->
  chord e <> chord e'.
Proof.
  revert t l i. induction frames as [|[t' l'] frames IH]; intros t l i;
    cbn [segments_from].
  - destruct i; discriminate.
  - destruct (decide (l' = l)) as [->|Hne]; [apply IH|].
    destruct i as [|i]; cbn [lookup list_lookup].
    + intros [= <-] He'.
      destruct (segments_from_head t' l' frames) as (e0 & rest & Heq & _ & Hl).
      rewrite Heq in He'. injection He' as <-. rewrite Hl. cbn. congruence.
    + apply IH.
Qed.

(** The segments of a merge are as [already_merged] says. *)
Lemma segments_from_already_merged (t : F) (l : string) (frames : list (F * string)) :
  already_merged (segments_from t l frames).
Proof.
  revert t l. induction frames as [|[t' l'] frames IH]; intros t l;
    cbn [segments_from].
  - cbn. auto.
  - destruct (decide (l' = l)) as [->|Hne]; [apply IH|].
    specialize (IH t' l').
    destruct (segments_from_head t' l' frames) as (e' & rest & Heq & Ht & Hl).
    rewrite Heq in IH |- *. destruct e' as [t0 l0 d0 c0].
    cbn [time chord] in Ht, Hl. subst t0 l0.
    split; [reflexivity|]. split; [|exact IH].
    split; [cbn; congruence | reflexivity].
Qed.

Lemma merge_frames_already_merged (frames : list (F * string)) :
  already_merged (merge_frames frames).
Proof.
  destruct frames as [|[t l] frames]; [exact I|].
  rewrite merge_frames_cons. apply segments_from_already_merged.
Qed.

(** Segments that are already merged come back from the loop that starts
    inside the first of them. *)
Lemma already_merged_remerge (e : ChordEvent F) (rest : list (ChordEvent F)) :
  already_merged (e :: rest) ->
  segments_from (time e) (chord e) (as_frame <$> rest) = e :: rest.
Proof.
  revert e. induction rest as [|e' rest IH]; intros [t l d c];
    cbn [already_merged confidence chord duration time].
  - intros (-> & -> & _). reflexivity.
  - intros (-> & [Hne ->] & Hrest).
    cbn [fmap list_fmap segments_from]. unfold as_frame at 1.
    rewrite decide_False by congruence. f_equal. apply IH, Hrest.
Qed.

(** Frames of which no two neighbours carry the same label, the first of
    them another label than [l], are all starts of segments. *)
Lemma change_points_distinct (e : ChordEvent F) (rest : list (ChordEvent F)) :
  distinct_neighbours (e :: rest) ->
  change_points (Some (chord e)) (as_frame <$> rest) = as_frame <$> rest.
Proof.
  revert e. induction rest as [|e' rest IH]; intros e; [reflexivity|].
  intros [Hne Hrest]. cbn [fmap list_fmap change_points]. unfold as_frame at 1 3.
  rewrite decide_False by congruence. f_equal. apply IH, Hrest.
Qed.

(** C8: the merge is idempotent.  A sequence of segments in which
    neighbouring segments carry distinct labels, every segment lasts until
    the next one starts, the last one lasts the constant [0.5] and all have
    the confidence [0.85], merges, each segment read as the frame of its
    start time and label, to the same sequence: the same starts, labels,
    durations and confidences.  No other sequence does, and the segments
    the code makes of any decoded frames are such a sequence.  With
    distinct neighbouring labels alone the merge gives the same starts and
    labels back, and it computes the durations anew. *)
Theorem run_length_merge_idempotent :
  (forall segments : list (ChordEvent F),
      already_merged segments
      <-> merge_frames (as_frame <$> segments) = segments)
  /\ (forall chords : list Z, already_merged (convert_to_structured chords))
  /\ (forall segments : list (ChordEvent F),
        distinct_neighbours segments ->
        as_frame <$> merge_frames (as_frame <$> segments) = as_frame <$> segments).
Proof.
  split; [|split].
  - intros segments. split.
    + destruct segments as [|e rest]; [reflexivity|]. intros Hmerged.
      cbn [fmap list_fmap]. unfold as_frame at 1.
      rewrite merge_frames_cons. by apply already_merged_remerge.
    + intros <-. apply merge_frames_already_merged.
  - intros chords. rewrite convert_to_structured_merge.
    apply merge_frames_already_merged.
  - intros [|e rest] Hdistinct; [reflexivity|].
    cbn [fmap list_fmap]. unfold as_frame at 2.
    rewrite merge_frames_cons, segments_from_change_points.
    by rewrite change_points_distinct.
Qed.

End MergeProperties.

Lemma run_length_merge_idempotent_witness :
  let segments :=
    [mkChordEvent 0%float "C:maj" 0.2%float 0.85%float;
     mkChordEvent 0.2%float "G:maj" 0.5%float 0.85%float] in
  already_merged segments
  /\ merge_frames (as_frame <$> segments) = segments.
Proof.
  cbv zeta.
  match goal with |- already_merged ?segs /\ _ =>
    assert (already_merged segs) as Hmerged
      by (cbn; repeat split; try reflexivity; discriminate);
    exact (conj Hmerged (proj1 (proj1 run_length_merge_idempotent segs) Hmerged))
  end.
Defined.

(** ** The labels *)

Lemma chord_idx_cases (chord_idx : Z) :
  0 <= chord_idx <= 24 -> chord_idx ∈ seqZ 0 25.
Proof. intros Hr. apply elem_of_seqZ. lia. Qed.

Lemma chord_names_checked :
  Forall (fun i =>
            (_get_chord_name i = "N" <-> i = 24)
            /\ (i < 12 -> _get_chord_name i
                          = nth (Z.to_nat (i mod 12)) CHORD_NAMES "" +:+ ":maj")
            /\ (12 <= i < 24 -> _get_chord_name i
                          = nth (Z.to_nat (i mod 12)) CHORD_NAMES "" +:+ ":min")
            /\ Forall (fun j => _get_chord_name i = _get_chord_name j -> i = j)
                      (seqZ 0 25))
         (seqZ 0 25).
Proof.
  apply (bool_decide_eq_true_1 _). vm_compute. reflexivity.
Qed.

Lemma vocabulary_checked :
  _get_chord_name <$> seqZ 0 25
  = ((fun root => root +:+ ":maj") <$> CHORD_NAMES)
    ++ ((fun root => root +:+ ":min") <$> CHORD_NAMES) ++ ["N"].
Proof. vm_compute. reflexivity. Qed.

(** C10: on the 25 classes of the recognizer the label is ["N"] exactly for
    the class 24, the major triad on the root [chord_idx mod 12] below 12 and
    the minor triad on that root from 12 to 23; two distinct classes have
    distinct labels; and the labels of the 25 classes are the 25 labels of
    the vocabulary, no more and no less. *)
Theorem get_chord_name_classes (chord_idx : Z) :
  0 <= chord_idx <= 24 ->
  (_get_chord_name chord_idx = "N" <-> chord_idx = 24)
  /\ (chord_idx < 12 ->
      _get_chord_name chord_idx
      = nth (Z.to_nat (chord_idx mod 12)) CHORD_NAMES "" +:+ ":maj")
  /\ (12 <= chord_idx < 24 ->
      _get_chord_name chord_idx
      = nth (Z.to_nat (chord_idx mod 12)) CHORD_NAMES "" +:+ ":min")
  /\ (forall j, 0 <= j <= 24 ->
        _get_chord_name chord_idx = _get_chord_name j -> chord_idx = j)
  /\ (forall label, label ∈ vocabulary <->
        exists i, 0 <= i <= 24 /\ _get_chord_name i = label)
  /\ length vocabulary = 25%nat.
Proof.
  intros Hr.
  pose proof chord_names_checked as Hall. rewrite Forall_forall in Hall.
  destruct (Hall chord_idx (chord_idx_cases _ Hr)) as (HN & Hmaj & Hmin & Hinj).
  repeat split; try (apply HN); try assumption.
  - intros j Hj. rewrite Forall_forall in Hinj. apply Hinj, chord_idx_cases, Hj.
  - intros Hin.
    assert (label ∈ _get_chord_name <$> seqZ 0 25) as Hin'.
    { rewrite vocabulary_checked. unfold vocabulary in Hin.
      rewrite elem_of_cons in Hin. rewrite !elem_of_app in *.
      rewrite list_elem_of_singleton. tauto. }
    apply list_elem_of_fmap in Hin' as (i & -> & Hi).
    apply elem_of_seqZ in Hi. exists i. split; [lia | reflexivity].
  - intros (i & Hi & <-).
    assert (_get_chord_name i ∈ _get_chord_name <$> seqZ 0 25) as Hin
      by (apply list_elem_of_fmap_2, chord_idx_cases, Hi).
    rewrite vocabulary_checked in Hin. unfold vocabulary.
    rewrite elem_of_cons. rewrite !elem_of_app in *.
    rewrite list_elem_of_singleton in Hin. tauto.
Qed.

Lemma get_chord_name_classes_witness :
  0 <= 7 <= 24
  /\ _get_chord_name 7 = "G:maj"
  /\ (forall j, 0 <= j <= 24 -> _get_chord_name 7 = _get_chord_name j -> 7 = j).
Proof.
  assert (0 <= 7 <= 24) as Hr by lia.
  split; [exact Hr|]. split; [reflexivity|].
  exact (proj1 (proj2 (proj2 (proj2 (get_chord_name_classes 7 Hr))))).
Defined.

(** ** The worked example, on binary64 *)

(** Two unequal floats, told apart by a comparison that computes. *)
Ltac float_differs f :=
  let Heq := fresh "Heq" in
  intros Heq; apply (f_equal f) in Heq; vm_compute in Heq; discriminate Heq.

Lemma example_frame_labels :
  frame_labels (F:=float) example_chords
  = [(0%float, "C:maj"); (0.1%float, "C:maj"); (0.2%float, "G:maj");
     (0.3%float, "G:maj"); (0.4%float, "G:maj")].
Proof. vm_compute. reflexivity. Qed.

(** C3, as the code has it: the five frames merge to two events, C major
    from 0.0 lasting 0.2 and G major from 0.2 lasting the constant 0.5, both
    with the confidence 0.85; the sequence is C major, G major; the only
    transition, under the key ["C:maj -> G:maj"], is counted once; each label
    occurs once in the sequence, so the first one, C major, is the most
    common chord, the key is C and the mode is major. *)
Theorem example_summary :
  let s := summarize (F:=float) example_chords in
  chords s = [mkChordEvent 0%float "C:maj" 0.2%float 0.85%float;
              mkChordEvent 0.2%float "G:maj" 0.5%float 0.85%float]
  /\ chord_sequence s = ["C:maj"; "G:maj"]
  /\ map_to_list (chord_transitions s) = [("C:maj -> G:maj", 1%nat)]
  /\ most_common_chord s = Some "C:maj"
  /\ key s = Some "C"
  /\ mode s = Some "major".
Proof. vm_compute. repeat split; reflexivity. Qed.

(** C3, as it is stated, fails: the last event does not last 0.3, and the
    most common chord and the key are not G major and G. *)
Lemma example_summary_as_claimed_fails :
  let s := summarize (F:=float) example_chords in
  chords s <> example_events_claimed
  /\ (duration <$> chords s) = [0.2%float; 0.5%float]
  /\ most_common_chord s <> Some "G:maj"
  /\ key s <> Some "G".
Proof.
  cbv zeta. split; [|split; [|split]].
  - float_differs (fun evs : list (ChordEvent float) =>
      match evs with
      | [_; e] => PrimFloat.eqb (duration e) 0.5%float
      | _ => false
      end).
  - vm_compute. reflexivity.
  - vm_compute. discriminate.
  - vm_compute. discriminate.
Qed.

(** ** The sum of the durations *)

(** C4, as it is stated, fails on binary64: two seconds of one chord merge to
    one event of 0.5 s; the durations sum to 0.5, the frames span 2.0 (the
    last one starts at 1.9), and neither difference is within the frame
    period 0.1. *)
Lemma held_chord_durations :
  let events := convert_to_structured (F:=float) held_chord in
  total_duration events = 0.5%float
  /\ spanned_duration held_chord = 2%float
  /\ last_frame_time held_chord = 1.9%float
  /\ frame_period = 0.1%float
  /\ PrimFloat.leb
       (PrimFloat.abs (total_duration events - spanned_duration held_chord))
       frame_period = false
  /\ PrimFloat.leb
       (PrimFloat.abs (total_duration events - last_frame_time held_chord))
       frame_period = false.
Proof. vm_compute. repeat split; reflexivity. Qed.

Section Durations.
Context {F : Type} `{PyFloat F}.

Lemma segments_from_starts (t : F) (l : string) (frames : list (F * string)) :
  duration <$> segments_from t l frames
  = differences (t :: (fst <$> change_points (Some l) frames)) ++ [lit_0_5].
Proof.
  revert t l. induction frames as [|[t' l'] frames IH]; intros t l;
    cbn [segments_from change_points].
  - reflexivity.
  - destruct (decide (l' = l)) as [->|Hne].
    + rewrite decide_True by done. apply IH.
    + rewrite decide_False by congruence. cbn [fmap list_fmap fst].
      rewrite IH. reflexivity.
Qed.

(** Frames that repeat the label of the segment they follow add nothing. *)
Lemma segments_from_held (t : F) (l : string) (frames held : list (F * string)) :
  Forall (fun frame => Some frame.2 = last (l :: frames.*2)) held ->
  segments_from t l (frames ++ held) = segments_from t l frames.
Proof.
  revert t l. induction frames as [|[t' l'] frames IH]; intros t l Hheld.
  - cbn [app]. induction held as [|[t' l'] held IHheld]; [reflexivity|].
    apply Forall_cons in Hheld as [Hl Hheld]. cbn in Hl. injection Hl as ->.
    cbn [segments_from]. rewrite decide_True by done. by apply IHheld.
  - cbn [app segments_from].
    assert (Forall (fun frame => Some frame.2 = last (l' :: frames.*2)) held) as Hheld'.
    { eapply Forall_impl; [exact Hheld|]. intros frame ->.
      rewrite fmap_cons. apply last_cons_cons. }
    destruct (decide (l' = l)) as [->|Hne]; [by apply IH | by rewrite IH].
Qed.

Lemma frame_labels_app (chords held : list Z) :
  frame_labels (chords ++ held)
  = frame_labels chords
    ++ imap (fun i c => (int_truediv (Z.of_nat (length chords + i)) fps,
                         _get_chord_name c)) held.
Proof. unfold frame_labels. rewrite imap_app. reflexivity. Qed.

Lemma frame_labels_last (chords : list Z) :
  last (frame_labels chords).*2 = _get_chord_name <$> last chords.
Proof.
  unfold frame_labels. rewrite fmap_imap.
  rewrite (imap_ext _ (const _get_chord_name)) by done.
  rewrite imap_const. apply fmap_last.
Qed.

(** C4, as the code has it: the durations of the events of a non-empty
    frame sequence are the differences of the start times of neighbouring
    segments, as the code subtracts them, followed by the constant [0.5] of
    the last segment, and the sum of the durations is the sum of these
    numbers; the events, and so the sum, stay the same when the last label
    is held for any number of further frames. *)
Theorem total_duration_of_starts (chords : list Z) :
  chords <> [] ->
  let events := convert_to_structured chords in
  let starts := (change_points None (frame_labels chords)).*1 in
  duration <$> events = differences starts ++ [lit_0_5]
  /\ total_duration events = py_sum (differences starts ++ [lit_0_5])
  /\ (forall (c : Z) (n : nat),
        last chords = Some c ->
        convert_to_structured (chords ++ replicate n c) = events).
Proof.
  intros Hne. cbv zeta.
  assert (duration <$> convert_to_structured chords
          = differences (change_points None (frame_labels chords)).*1 ++ [lit_0_5])
    as Hdurations.
  { rewrite convert_to_structured_merge.
    destruct (frame_labels chords) as [|[t l] frames] eqn:Hframes.
    - destruct chords; [done | discriminate Hframes].
    - rewrite merge_frames_cons. cbn [change_points].
      rewrite decide_False by done. apply segments_from_starts. }
  split; [exact Hdurations|]. split.
  - unfold total_duration. rewrite <- Hdurations. reflexivity.
  - intros c n Hlast. rewrite !convert_to_structured_merge, frame_labels_app.
    pose proof (frame_labels_last chords) as Hlabel. rewrite Hlast in Hlabel.
    destruct (frame_labels chords) as [|[t l] frames] eqn:Hframes.
    + destruct chords; [done | discriminate Hframes].
    + cbn [app]. rewrite !merge_frames_cons. apply segments_from_held.
      rewrite fmap_cons in Hlabel. cbn [snd] in Hlabel.
      assert (last (l :: frames.*2) = Some (_get_chord_name c)) as ->
        by exact Hlabel.
      apply Forall_forall. intros [t' l'] Hin.
      apply elem_of_lookup_imap_1 in Hin as (i & x & [= -> ->] & Hx).
      apply lookup_replicate in Hx as [-> _]. reflexivity.
Qed.

End Durations.

Lemma total_duration_of_starts_witness :
  held_chord <> []
  /\ duration <$> convert_to_structured (F:=float) held_chord = [0.5%float]
  /\ convert_to_structured (F:=float) (held_chord ++ replicate 30 0)
     = convert_to_structured held_chord.
Proof.
  assert (held_chord <> []) as Hne by discriminate.
  destruct (total_duration_of_starts (F:=float) held_chord Hne) as (Hd & _ & Hheld).
  split; [exact Hne|]. split.
  - rewrite Hd. vm_compute. reflexivity.
  - apply Hheld. vm_compute. reflexivity.
Defined.

(** ** The transition table *)

Lemma sum_list_snd_perm (l1 l2 : list (string * nat)) :
  l1 ≡ₚ l2 -> sum_list (snd <$> l1) = sum_list (snd <$> l2).
Proof.
  induction 1 as [|x l1 l2 _ IH|x y l|l1 l2 l3 _ IH1 _ IH2];
    rewrite ?fmap_cons; simpl in *; lia.
Qed.

Lemma sum_counts_insert_fresh (m : gmap string nat) (k : string) (n : nat) :
  m !! k = None -> sum_counts (<[k := n]> m) = (n + sum_counts m)%nat.
Proof.
  intros Hk. unfold sum_counts.
  rewrite (sum_list_snd_perm _ _ (map_to_list_insert m k n Hk)). reflexivity.
Qed.

(** [transitions[k] = transitions.get(k, 0) + 1] adds one to the sum. *)
Lemma sum_counts_incr (m : gmap string nat) (k : string) :
  sum_counts (<[k := (default 0 (m !! k) + 1)%nat]> m) = S (sum_counts m).
Proof.
  destruct (m !! k) as [n|] eqn:Hk; unfold default; cbn [from_option id].
  - rewrite <- insert_delete_eq, sum_counts_insert_fresh by apply lookup_delete_eq.
    rewrite <- (insert_delete_id m k n Hk) at 2.
    rewrite sum_counts_insert_fresh by apply lookup_delete_eq. lia.
  - rewrite sum_counts_insert_fresh by done. lia.
Qed.

Lemma size_insert_le (m : gmap string nat) (k : string) (n : nat) :
  (size (<[k := n]> m) <= S (size m))%nat.
Proof. rewrite map_size_insert. destruct (m !! k); cbn; lia. Qed.

Lemma transitions_loop_counts (seq : list string) (m : gmap string nat) :
  sum_counts (transitions_loop seq m) = (sum_counts m + (length seq - 1))%nat
  /\ (size (transitions_loop seq m) <= size m + (length seq - 1))%nat.
Proof.
  revert m. induction seq as [|a seq IH]; intros m; [cbn; lia|].
  destruct seq as [|b seq]; [cbn; lia|].
  change (transitions_loop (a :: b :: seq) m) with
    (transitions_loop (b :: seq)
       (<[transition_key a b := (default 0 (m !! transition_key a b) + 1)%nat]> m)).
  destruct (IH (<[transition_key a b := (default 0 (m !! transition_key a b) + 1)%nat]> m))
    as [Hsum Hsize].
  rewrite Hsum, sum_counts_incr. split; [cbn [length]; lia|].
  etransitivity; [exact Hsize|].
  pose proof (size_insert_le m (transition_key a b)
                (default 0 (m !! transition_key a b) + 1)%nat).
  cbn [length]. lia.
Qed.

Section Transitions.
Context {F : Type} `{PyFloat F}.

Lemma analyze_chord_sequence_sequence (chords_data : list (ChordEvent F)) :
  chord_sequence (_analyze_chord_sequence chords_data) = chord <$> chords_data.
Proof.
  destruct chords_data as [|e chords_data]; [reflexivity|].
  unfold _analyze_chord_sequence. destruct (estimate_key _). reflexivity.
Qed.

Lemma analyze_chord_sequence_transitions (chords_data : list (ChordEvent F)) :
  chord_transitions (_analyze_chord_sequence chords_data)
  = transitions_loop (chord <$> chords_data) ∅.
Proof.
  destruct chords_data as [|e chords_data]; [reflexivity|].
  unfold _analyze_chord_sequence. destruct (estimate_key _). reflexivity.
Qed.

(** C6: in every summary the counts of the transition table sum to
    [max(len(sequence) - 1, 0)], and a non-empty sequence has at most
    [len(sequence) - 1] distinct transitions. *)
Theorem transition_table_counts (chords_data : list (ChordEvent F)) :
  let s := _analyze_chord_sequence chords_data in
  Z.of_nat (sum_counts (chord_transitions s))
  = Z.max (Z.of_nat (length (chord_sequence s)) - 1) 0
  /\ (chord_sequence s <> [] ->
      Z.of_nat (size (chord_transitions s))
      <= Z.of_nat (length (chord_sequence s)) - 1).
Proof.
  cbv zeta.
  rewrite analyze_chord_sequence_sequence, analyze_chord_sequence_transitions.
  destruct (transitions_loop_counts (chord <$> chords_data) ∅) as [Hsum Hsize].
  rewrite Hsum. change (sum_counts ∅) with 0%nat.
  rewrite map_size_empty in Hsize.
  split.
  - lia.
  - intros Hne. destruct (chord <$> chords_data); [done|]. cbn [length] in *. lia.
Qed.

End Transitions.

(** ** The most common chord *)

Lemma Counter_of_snoc (seq : list string) (x : string) :
  Counter_of (seq ++ [x]) = counter_incr x (Counter_of seq).
Proof. unfold Counter_of. rewrite fold_left_app. reflexivity. Qed.

Lemma counter_incr_keys (k : string) (c : Counter) :
  counter_keys (counter_incr k c)
  = if decide (k ∈ counter_keys c) then counter_keys c else counter_keys c ++ [k].
Proof.
  induction c as [|[k' n] c IH]; cbn [counter_incr counter_keys fmap list_fmap fst].
  - rewrite decide_False by apply not_elem_of_nil. reflexivity.
  - destruct (decide (k = k')) as [->|Hne].
    + rewrite decide_True by apply list_elem_of_here. reflexivity.
    + cbn [fmap list_fmap fst]. fold (counter_keys (counter_incr k c)).
      fold (counter_keys c). rewrite IH.
      destruct (decide (k ∈ counter_keys c)) as [Hin|Hnin].
      * rewrite decide_True by (by apply list_elem_of_further). reflexivity.
      * rewrite decide_False; [reflexivity|].
        rewrite elem_of_cons. tauto.
Qed.

Lemma counter_incr_get (k k' : string) (c : Counter) :
  counter_get k' (counter_incr k c)
  = if decide (k' = k) then S (counter_get k' c) else counter_get k' c.
Proof.
  induction c as [|[k0 n] c IH]; cbn [counter_incr counter_get].
  - destruct (decide (k' = k)); reflexivity.
  - destruct (decide (k = k0)) as [->|Hne]; cbn [counter_get].
    + destruct (decide (k' = k0)); reflexivity.
    + destruct (decide (k' = k0)) as [->|Hne'].
      * rewrite decide_False by done. reflexivity.
      * exact IH.
Qed.

Lemma counter_get_lookup (c : Counter) (q : nat) (k : string) (n : nat) :
  NoDup (counter_keys c) -> c !! q = Some (k, n) -> counter_get k c = n.
Proof.
  revert q. induction c as [|[k0 n0] c IH]; intros q Hnd Hq; [done|].
  cbn [counter_keys fmap list_fmap fst] in Hnd. apply NoDup_cons in Hnd as [Hnin Hnd].
  cbn [counter_get]. destruct q as [|q]; cbn in Hq.
  - injection Hq as -> ->. rewrite decide_True by done. reflexivity.
  - destruct (decide (k = k0)) as [->|Hne]; [|by eapply IH].
    exfalso. apply Hnin. apply list_elem_of_fmap. exists (k0, n).
    split; [reflexivity|]. eapply list_elem_of_lookup_2, Hq.
Qed.

Lemma occurrences_snoc (k x : string) (seq : list string) :
  occurrences k (seq ++ [x])
  = if decide (k = x) then S (occurrences k seq) else occurrences k seq.
Proof.
  unfold occurrences. rewrite filter_app, length_app.
  destruct (decide (k = x)) as [->|Hne].
  - rewrite filter_cons_True by done. cbn. lia.
  - rewrite filter_cons_False by congruence. cbn. lia.
Qed.

Lemma occurrences_pos (k : string) (seq : list string) :
  k ∈ seq <-> (0 < occurrences k seq)%nat.
Proof.
  unfold occurrences. induction seq as [|x seq IH].
  - cbn. split; [intros Hin; by apply elem_of_nil in Hin | lia].
  - rewrite elem_of_cons. destruct (decide (x = k)) as [->|Hne].
    + rewrite filter_cons_True by done. cbn. split; [lia | auto].
    + rewrite filter_cons_False by done. rewrite <- IH. split; [|auto].
      intros [->|Hin]; [done | exact Hin].
Qed.

Lemma first_occurrence_Some (k : string) (seq : list string) :
  k ∈ seq -> exists i, first_occurrence k seq = Some i /\ (i < length seq)%nat.
Proof.
  induction seq as [|x seq IH]; intros Hin; [by apply elem_of_nil in Hin|].
  cbn [first_occurrence length]. destruct (decide (x = k)) as [->|Hne].
  - exists 0%nat. split; [reflexivity | lia].
  - apply elem_of_cons in Hin as [->|Hin]; [done|].
    destruct (IH Hin) as (i & -> & Hi). exists (S i). split; [reflexivity | lia].
Qed.

Lemma first_occurrence_None (k : string) (seq : list string) :
  k ∉ seq -> first_occurrence k seq = None.
Proof.
  induction seq as [|x seq IH]; intros Hnin; [reflexivity|].
  cbn [first_occurrence]. rewrite not_elem_of_cons in Hnin. destruct Hnin as [Hne Hnin].
  rewrite decide_False by congruence. rewrite (IH Hnin). reflexivity.
Qed.

Lemma first_occurrence_snoc (k x : string) (seq : list string) :
  first_occurrence k (seq ++ [x])
  = match first_occurrence k seq with
    | Some i => Some i
    | None => if decide (x = k) then Some (length seq) else None
    end.
Proof.
  induction seq as [|y seq IH]; cbn [app first_occurrence length].
  - destruct (decide (x = k)); reflexivity.
  - destruct (decide (y = k)); [reflexivity|]. rewrite IH.
    destruct (first_occurrence k seq); [reflexivity|].
    destruct (decide (x = k)); reflexivity.
Qed.

Lemma first_occurrence_elem (k : string) (seq : list string) (i : nat) :
  first_occurrence k seq = Some i -> k ∈ seq.
Proof.
  intros Hi. destruct (decide (k ∈ seq)) as [Hin|Hnin]; [exact Hin|].
  rewrite (first_occurrence_None k seq Hnin) in Hi. discriminate.
Qed.

(** The counter of a sequence holds each label of the sequence once, in the
    order of the first occurrences, with the number of its occurrences. *)
Lemma Counter_of_spec (seq : list string) :
  NoDup (counter_keys (Counter_of seq))
  /\ (forall k, counter_get k (Counter_of seq) = occurrences k seq)
  /\ (forall k, k ∈ counter_keys (Counter_of seq) <-> k ∈ seq)
  /\ first_seen_order seq (counter_keys (Counter_of seq)).
Proof.
  induction seq as [|x seq (Hnd & Hget & Hin & Hord)] using rev_ind.
  - split; [constructor|]. split; [done|]. split; [done|].
    intros p q k1 k2 Hp. discriminate.
  - rewrite Counter_of_snoc, counter_incr_keys. repeat split.
    + destruct (decide (x ∈ counter_keys (Counter_of seq))) as [Hx|Hx]; [exact Hnd|].
      apply NoDup_app. split; [exact Hnd|]. split; [|apply NoDup_singleton].
      intros y Hy Hy'. apply list_elem_of_singleton in Hy' as ->. done.
    + intros k. rewrite counter_incr_get, occurrences_snoc, Hget. reflexivity.
    + intros Hk. rewrite elem_of_app, list_elem_of_singleton.
      destruct (decide (x ∈ counter_keys (Counter_of seq))) as [Hx|Hx].
      * left. by apply Hin.
      * rewrite elem_of_app, list_elem_of_singleton in Hk.
        destruct Hk as [Hk| ->]; [left; by apply Hin | by right].
    + rewrite elem_of_app, list_elem_of_singleton. intros [Hk| ->].
      * apply Hin in Hk. destruct (decide (x ∈ counter_keys (Counter_of seq)));
          [exact Hk | apply elem_of_app; by left].
      * destruct (decide (x ∈ counter_keys (Counter_of seq))) as [Hx|Hx];
          [exact Hx | apply elem_of_app; right; by apply list_elem_of_singleton].
    + intros p q k1 k2 Hp Hq Hpq.
      assert (forall k i, first_occurrence k seq = Some i ->
                first_occurrence k (seq ++ [x]) = Some i) as Hkeep.
      { intros k i Hi. rewrite first_occurrence_snoc, Hi. reflexivity. }
      destruct (decide (x ∈ counter_keys (Counter_of seq))) as [Hx|Hx].
      * destruct (Hord p q k1 k2 Hp Hq Hpq) as (i & j & Hi & Hj & Hij).
        exists i, j. auto.
      * apply lookup_snoc_Some in Hq as [[Hlt Hq] | [-> <-]].
        -- apply lookup_snoc_Some in Hp as [[_ Hp] | [-> _]]; [|lia].
           destruct (Hord p q k1 k2 Hp Hq Hpq) as (i & j & Hi & Hj & Hij).
           exists i, j. auto.
        -- apply lookup_snoc_Some in Hp as [[_ Hp] | [-> _]]; [|lia].
           assert (k1 ∈ seq) as Hk1
             by (apply Hin; eapply list_elem_of_lookup_2, Hp).
           destruct (first_occurrence_Some k1 seq Hk1) as (i & Hi & Hlen).
           exists i, (length seq). split; [by apply Hkeep|]. split; [|exact Hlen].
           rewrite first_occurrence_snoc, first_occurrence_None.
           ++ rewrite decide_True by done. reflexivity.
           ++ intros Hx'. apply Hx, Hin, Hx'.
Qed.

Lemma most_common_1_snoc (c : Counter) (x : string * nat) :
  most_common_1 (c ++ [x]) = keep_max (most_common_1 c) x.
Proof. unfold most_common_1. rewrite fold_left_app. reflexivity. Qed.

(** [most_common(1)] is an entry with the largest count, and every entry
    before it has a smaller count. *)
Lemma most_common_1_spec (c : Counter) :
  c <> [] ->
  exists p b, most_common_1 c = Some b /\ c !! p = Some b
    /\ (forall q y, c !! q = Some y ->
          (y.2 <= b.2)%nat /\ ((q < p)%nat -> (y.2 < b.2)%nat)).
Proof.
  induction c as [|x c IH] using rev_ind; [done|]. intros _.
  rewrite most_common_1_snoc.
  destruct c as [|x0 c0].
  - exists 0%nat, x. split; [reflexivity|]. split; [reflexivity|].
    intros [|q] y Hq; [|discriminate]. injection Hq as <-. lia.
  - destruct IH as (p & b & -> & Hp & Hmax); [done|].
    set (c := x0 :: c0) in *. cbn [keep_max].
    destruct (decide (b.2 < x.2)%nat) as [Hlt|Hge].
    + exists (length c), x. split; [reflexivity|].
      split; [apply lookup_snoc_Some; by right|].
      intros q y Hq. apply lookup_snoc_Some in Hq as [[Hq' Hq] | [-> <-]].
      * destruct (Hmax q y Hq) as [Hle _]. lia.
      * lia.
    + exists p, b. split; [reflexivity|].
      split; [by apply lookup_app_l_Some|].
      intros q y Hq. apply lookup_snoc_Some in Hq as [[Hq' Hq] | [-> <-]].
      * apply Hmax, Hq.
      * split; [lia|]. intros Hlen. apply lookup_lt_Some in Hp. lia.
Qed.

Lemma most_common_of_spec (seq : list string) :
  seq <> [] ->
  exists c, most_common_of seq = Some c
    /\ c ∈ seq
    /\ (forall d, (occurrences d seq <= occurrences c seq)%nat)
    /\ (forall d, d <> c -> occurrences d seq = occurrences c seq ->
          exists i j, first_occurrence c seq = Some i
                      /\ first_occurrence d seq = Some j /\ (i < j)%nat).
Proof.
  intros Hne.
  destruct (Counter_of_spec seq) as (Hnd & Hget & Hin & Hord).
  assert (Counter_of seq <> []) as Hcne.
  { destruct seq as [|x seq]; [done|].
    assert (x ∈ counter_keys (Counter_of (x :: seq))) as Hx
      by apply Hin, list_elem_of_here.
    intros Hnil. rewrite Hnil in Hx. by apply elem_of_nil in Hx. }
  destruct (most_common_1_spec _ Hcne) as (p & [c n] & Hbest & Hp & Hmax).
  assert (counter_keys (Counter_of seq) !! p = Some c) as Hkp
    by (unfold counter_keys; rewrite list_lookup_fmap, Hp; reflexivity).
  assert (n = occurrences c seq) as Hn
    by (rewrite <- Hget; symmetry; eapply counter_get_lookup; eauto).
  assert (forall d, d ∈ seq ->
            exists q, Counter_of seq !! q = Some (d, occurrences d seq)) as Hentry.
  { intros d Hd. apply Hin, list_elem_of_lookup_1 in Hd as [q Hq].
    unfold counter_keys in Hq. apply list_lookup_fmap_Some in Hq as ([d' m] & -> & Hq).
    exists q. rewrite Hq. cbn [fst]. f_equal. f_equal.
    rewrite <- Hget. symmetry. eapply counter_get_lookup; eauto. }
  exists c. split; [unfold most_common_of; rewrite Hbest; reflexivity|].
  split; [apply Hin; eapply list_elem_of_lookup_2, Hkp|].
  split.
  - intros d. destruct (decide (d ∈ seq)) as [Hd|Hd].
    + destruct (Hentry d Hd) as [q Hq]. destruct (Hmax q _ Hq) as [Hle _].
      cbn [snd] in Hle. lia.
    + pose proof (proj2 (occurrences_pos d seq)) as Hpos.
      destruct (occurrences d seq); [lia|]. exfalso. apply Hd, Hpos. lia.
  - intros d Hdc Hocc.
    assert (c ∈ seq) as Hc by (apply Hin; eapply list_elem_of_lookup_2, Hkp).
    assert (d ∈ seq) as Hd.
    { apply occurrences_pos. rewrite Hocc. by apply occurrences_pos. }
    destruct (Hentry d Hd) as [q Hq].
    assert (counter_keys (Counter_of seq) !! q = Some d) as Hkq
      by (unfold counter_keys; rewrite list_lookup_fmap, Hq; reflexivity).
    destruct (Hmax q _ Hq) as [_ Hbefore]. cbn [snd] in Hbefore.
    assert (p < q)%nat as Hpq.
    { destruct (Nat.lt_total p q) as [Hlt|[Heq|Hgt]]; [exact Hlt| |].
      - subst q. rewrite Hkp in Hkq. congruence.
      - specialize (Hbefore Hgt). lia. }
    exact (Hord p q c d Hkp Hkq Hpq).
Qed.

Section MostCommon.
Context {F : Type} `{PyFloat F}.

Lemma analyze_chord_sequence_most_common (chords_data : list (ChordEvent F)) :
  chords_data <> [] ->
  most_common_chord (_analyze_chord_sequence chords_data)
  = most_common_of (chord <$> chords_data).
Proof.
  destruct chords_data as [|e chords_data]; [done|]. intros _.
  unfold _analyze_chord_sequence. destruct (estimate_key _). reflexivity.
Qed.


End MostCommon.


(** ** The failure policy of the pipeline *)

(** Unfolds a run down to the answers of the collaborators. *)
Ltac unfold_run :=
  unfold run_analysis, analyze_audio, extract_features, transcribe;
  unfold mbind, M_bind, mret, M_ret, try_except, lift, enter, read_clock, raise,
    initial_state;
  cbn [invoked clock_reads app].

Section Policy.
Context {F : Type} `{PyFloat F}.

(** [ChordAnalyzer.analyze] never raises. *)
Lemma analyze_returns (w : World F) (audio_path : string) :
  exists progression, analyze w audio_path = Ok progression.
Proof.
  unfold analyze. destruct (_detect_chords_madmom w audio_path); eauto.
Qed.

(** C1, as the code has it: when the recognizer raises,
    [ChordAnalyzer.analyze] catches the exception and returns, as its
    result, the progression with no events, an empty sequence, no unique
    chords, no transitions and no confidence mean; and a run whose file
    size, two extractions and validation of the year succeed goes on, with
    or without the lyrics, and returns a record that holds this
    progression. *)
Theorem recognizer_failure_is_swallowed (w : World F) (audio_path : string) (e : exn) :
  madmom_decode w audio_path = Raise e ->
  analyze w audio_path = Ok error_progression
  /\ chords (F:=F) error_progression = []
  /\ chord_sequence (F:=F) error_progression = []
  /\ (forall source source_path extract_lyrics size librosa_features duration rate
             essentia_features validated,
        os_path_getsize w audio_path = Ok size ->
        librosa_extract_all_features w audio_path
        = Ok (librosa_features, duration, rate) ->
        essentia_extract_all_features w audio_path = Ok essentia_features ->
        validate_year w (_extract_metadata w audio_path !! "year") = Ok validated ->
        exists record st,
          run_analysis w audio_path source source_path extract_lyrics = (Ok record, st)
          /\ chord_progression (features record) = Some error_progression).
Proof.
  intros Hraise.
  assert (analyze w audio_path = Ok error_progression) as Hanalyze
    by (unfold analyze, _detect_chords_madmom; rewrite Hraise; reflexivity).
  repeat split; [exact Hanalyze|].
  intros source source_path extract_lyrics size lf duration rate ef validated
    Hsize Hlibrosa Hessentia Hyear.
  unfold_run. rewrite Hsize, Hlibrosa, Hessentia, Hanalyze.
  destruct extract_lyrics;
    [destruct (whisper_client w); [destruct (whisper_create w audio_path None)|]|];
    rewrite Hyear; eexists _, _; split; reflexivity.
Qed.

(** C2, as the code has it: when the first extractor raises, the run
    raises that very exception and returns no record; the metadata and the
    file size were read before, in this order, and neither the second
    extractor nor the chord analysis nor the transcription is invoked. *)
Theorem primary_extraction_failure (w : World F) (audio_path source : string)
    (source_path : option string) (extract_lyrics : bool) (size : Z) (e : exn) :
  os_path_getsize w audio_path = Ok size ->
  librosa_extract_all_features w audio_path = Raise e ->
  exists st,
    run_analysis w audio_path source source_path extract_lyrics = (Raise e, st)
    /\ invoked st = [StageMetadata; StageFileSize; StageLibrosa]
    /\ (StageEssentia ∉ invoked st)
    /\ (StageChords ∉ invoked st)
    /\ (StageLyrics ∉ invoked st).
Proof.
  intros Hsize Hlibrosa. unfold_run. rewrite Hsize, Hlibrosa.
  eexists. split; [reflexivity|]. cbn [invoked].
  split; [reflexivity|].
  repeat split; intros Hin; repeat (apply elem_of_cons in Hin as [Hin|Hin]; [discriminate|]);
    by apply elem_of_nil in Hin.
Qed.

End Policy.

(** C1, as it is stated, fails: the recognizer raises, and the analysis
    returns the empty progression as a result; the run is not aborted and
    its record holds that progression. *)
Lemma recognizer_failure_returns_empty_progression :
  madmom_decode studio_without_recognizer "song.mp3"
  = Raise (mkExn "IOError" "model file not found")
  /\ analyze studio_without_recognizer "song.mp3" = Ok error_progression
  /\ chords (F:=float) error_progression = []
  /\ chord_sequence (F:=float) error_progression = []
  /\ match run_analysis studio_without_recognizer "song.mp3" "upload" None true with
     | (Ok record, _) => chord_progression (features record) = Some error_progression
     | (Raise _, _) => False
     end.
Proof. repeat split. Qed.

Lemma recognizer_failure_is_swallowed_witness :
  madmom_decode studio_without_recognizer "song.mp3"
  = Raise (mkExn "IOError" "model file not found")
  /\ validate_year studio_without_recognizer
       (_extract_metadata studio_without_recognizer "song.mp3" !! "year")
     = Ok (Some 2019)
  /\ analyze studio_without_recognizer "song.mp3" = Ok error_progression
  /\ exists record st,
      run_analysis studio_without_recognizer "song.mp3" "upload" None true
      = (Ok record, st)
      /\ chord_progression (features record) = Some error_progression.
Proof.
  assert (madmom_decode studio_without_recognizer "song.mp3"
          = Raise (mkExn "IOError" "model file not found")) as Hraise by reflexivity.
  assert (validate_year studio_without_recognizer
            (_extract_metadata studio_without_recognizer "song.mp3" !! "year")
          = Ok (Some 2019)) as Hyear by (vm_compute; reflexivity).
  split; [exact Hraise|]. split; [exact Hyear|].
  destruct (recognizer_failure_is_swallowed studio_without_recognizer "song.mp3" _ Hraise)
    as (Hanalyze & _ & _ & Hrun).
  split; [exact Hanalyze|].
  exact (Hrun "upload" None true 1024 [("tempo", [120%float])] 0.5%float 22050
           [("bpm", [120%float])] (Some 2019) eq_refl eq_refl eq_refl Hyear).
Defined.

(** C2, as it is stated, fails: the first extractor raises; the run raises
    that exception, of the extractor's own class and not an
    [AnalysisError], and the metadata stage was invoked before. *)
Lemma bad_file_run :
  librosa_extract_all_features studio_with_bad_file "song.mp3"
  = Raise (mkExn "NoBackendError" "cannot decode")
  /\ run_analysis studio_with_bad_file "song.mp3" "upload" None true
     = (Raise (mkExn "NoBackendError" "cannot decode"),
        mkRunState [StageMetadata; StageFileSize; StageLibrosa] 1)
  /\ StageMetadata ∈ [StageMetadata; StageFileSize; StageLibrosa]
  /\ exn_class (mkExn "NoBackendError" "cannot decode") <> "AnalysisError".
Proof.
  split; [reflexivity|]. split; [vm_compute; reflexivity|].
  split; [apply list_elem_of_here | discriminate].
Qed.

Lemma primary_extraction_failure_witness :
  os_path_getsize studio_with_bad_file "song.mp3" = Ok 1024
  /\ librosa_extract_all_features studio_with_bad_file "song.mp3"
     = Raise (mkExn "NoBackendError" "cannot decode")
  /\ exists st,
      run_analysis studio_with_bad_file "song.mp3" "upload" None true
      = (Raise (mkExn "NoBackendError" "cannot decode"), st)
      /\ invoked st = [StageMetadata; StageFileSize; StageLibrosa]
      /\ (StageEssentia ∉ invoked st)
      /\ (StageChords ∉ invoked st)
      /\ (StageLyrics ∉ invoked st).
Proof.
  split; [reflexivity|]. split; [reflexivity|].
  exact (primary_extraction_failure studio_with_bad_file "song.mp3" "upload" None true
           1024 _ eq_refl eq_refl).
Defined.

(** C9, where the code fails it: the date frame of the file holds the
    text [unknown]; the file size, both extractions and the chord analysis
    succeed and the transcription request is refused; the tag reader leaves
    the year as this text, the validation of the record refuses it, and the
    run raises the [ValidationError] after all six stages, instead of
    returning a record without lyrics. *)
Lemma undated_file_aborts_run :
  _extract_metadata studio_with_undated_file "song.mp3" !! "year"
  = Some (MetaStr "unknown")
  /\ os_path_getsize studio_with_undated_file "song.mp3" = Ok 1024
  /\ librosa_extract_all_features studio_with_undated_file "song.mp3"
     = Ok ([("tempo", [120%float])], 0.5%float, 22050)
  /\ essentia_extract_all_features studio_with_undated_file "song.mp3"
     = Ok [("bpm", [120%float])]
  /\ analyze studio_with_undated_file "song.mp3" = Ok (summarize example_chords)
  /\ whisper_create studio_with_undated_file "song.mp3" None
     = Raise (mkExn "APIError" "rate limit reached")
  /\ run_analysis studio_with_undated_file "song.mp3" "upload" None true
     = (Raise (mkExn "ValidationError"
                 "Input should be a valid integer, unable to parse string as an integer"),
        mkRunState [StageMetadata; StageFileSize; StageLibrosa; StageEssentia;
                    StageChords; StageLyrics] 3).
Proof. repeat split; vm_compute; reflexivity. Qed.

(** * Further properties of chord_analyzer.py *)

(** ** Labels of arbitrary class indices *)

Lemma class_label_in_vocabulary (i : Z) :
  0 <= i <= 24 -> _get_chord_name i ∈ vocabulary.
Proof.
  intros Hi.
  assert (_get_chord_name i ∈ _get_chord_name <$> seqZ 0 25) as Hin
    by (apply list_elem_of_fmap_2, chord_idx_cases, Hi).
  rewrite vocabulary_checked in Hin. unfold vocabulary.
  rewrite elem_of_cons. rewrite !elem_of_app in *.
  rewrite list_elem_of_singleton in Hin. tauto.
Qed.

(** Outside the class 24 the label depends on the index through its
    remainder by 12 and its side of 12 only. *)
Lemma get_chord_name_reduce (chord_idx : Z) :
  chord_idx <> 24 ->
  _get_chord_name chord_idx
  = _get_chord_name (if decide (chord_idx < 12) then chord_idx mod 12
                     else 12 + chord_idx mod 12).
Proof.
  intros Hne. pose proof (Z.mod_pos_bound chord_idx 12 ltac:(lia)) as Hr.
  unfold _get_chord_name. rewrite (decide_False (P := chord_idx = 24)) by done.
  destruct (decide (chord_idx < 12)) as [Hlt|Hge].
  - rewrite (decide_False (P := chord_idx mod 12 = 24)) by lia.
    rewrite (decide_True (P := chord_idx mod 12 < 12)) by lia.
    rewrite Z.mod_mod by lia. reflexivity.
  - rewrite (decide_False (P := 12 + chord_idx mod 12 = 24)) by lia.
    rewrite (decide_False (P := 12 + chord_idx mod 12 < 12)) by lia.
    replace ((12 + chord_idx mod 12) mod 12) with (chord_idx mod 12); [reflexivity|].
    rewrite Z.add_mod, Z.mod_mod by lia. change (12 mod 12) with 0.
    rewrite Z.add_0_l, Z.mod_mod by lia. reflexivity.
Qed.

(** X1: [_get_chord_name] on any integer: the index into [CHORD_NAMES] is
    in range, the label is one of the 25 labels, a negative index gives the
    major triad of its remainder and an index above 24 the minor triad of
    its remainder, the label of a class between 12 and 23. *)
Theorem get_chord_name_any_index (chord_idx : Z) :
  (Z.to_nat (chord_idx mod 12) < length CHORD_NAMES)%nat
  /\ _get_chord_name chord_idx ∈ vocabulary
  /\ (chord_idx < 0 ->
      _get_chord_name chord_idx = _get_chord_name (chord_idx mod 12))
  /\ (24 < chord_idx ->
      _get_chord_name chord_idx = _get_chord_name (12 + chord_idx mod 12)).
Proof.
  pose proof (Z.mod_pos_bound chord_idx 12 ltac:(lia)) as Hr.
  split; [cbn [length CHORD_NAMES]; lia|]. split; [|split].
  - destruct (decide (chord_idx = 24)) as [->|Hne].
    + apply class_label_in_vocabulary. lia.
    + rewrite get_chord_name_reduce by done.
      apply class_label_in_vocabulary. destruct (decide (chord_idx < 12)); lia.
  - intros Hneg. rewrite get_chord_name_reduce by lia.
    rewrite decide_True by lia. reflexivity.
  - intros Hbig. rewrite get_chord_name_reduce by lia.
    rewrite decide_False by lia. reflexivity.
Qed.

(** ** The key and the mode *)

Lemma estimate_key_classes :
  Forall (fun i =>
            estimate_key (Some (_get_chord_name i))
            = (Some (nth (Z.to_nat (i mod 12)) CHORD_NAMES ""),
               Some (if decide (i < 12) then "major" else "minor")))
         (seqZ 0 24).
Proof. apply (bool_decide_eq_true_1 _). vm_compute. reflexivity. Qed.

(** The estimate for the label of a class other than 24: its root and the
    mode of its side of 12. *)
Lemma estimate_key_label (chord_idx : Z) :
  chord_idx <> 24 ->
  estimate_key (Some (_get_chord_name chord_idx))
  = (Some (nth (Z.to_nat (chord_idx mod 12)) CHORD_NAMES ""),
     Some (if decide (chord_idx < 12) then "major" else "minor")).
Proof.
  intros Hne. pose proof (Z.mod_pos_bound chord_idx 12 ltac:(lia)) as Hr.
  pose proof estimate_key_classes as Hall. rewrite Forall_forall in Hall.
  rewrite get_chord_name_reduce by done.
  destruct (decide (chord_idx < 12)) as [Hlt|Hge].
  - rewrite (Hall (chord_idx mod 12)) by (apply elem_of_seqZ; lia).
    rewrite Z.mod_mod by lia. rewrite decide_True by lia. reflexivity.
  - rewrite (Hall (12 + chord_idx mod 12)) by (apply elem_of_seqZ; lia).
    rewrite decide_False by lia.
    replace ((12 + chord_idx mod 12) mod 12) with (chord_idx mod 12); [reflexivity|].
    rewrite Z.add_mod, Z.mod_mod by lia. change (12 mod 12) with 0.
    rewrite Z.add_0_l, Z.mod_mod by lia. reflexivity.
Qed.

Lemma most_common_1_nil_iff (c : Counter) : most_common_1 c = None <-> c = [].
Proof.
  split; [|intros ->; reflexivity].
  destruct c as [|x c]; [done|]. intros Hnone.
  destruct (most_common_1_spec (x :: c)) as (p & b & Hbest & _); [done|].
  rewrite Hbest in Hnone. discriminate.
Qed.

Section KeyEstimate.
Context {F : Type} `{PyFloat F}.

Lemma analyze_chord_sequence_key (chords_data : list (ChordEvent F)) :
  chords_data <> [] ->
  (key (_analyze_chord_sequence chords_data), mode (_analyze_chord_sequence chords_data))
  = estimate_key (most_common_of (chord <$> chords_data)).
Proof.
  destruct chords_data as [|e chords_data]; [done|]. intros _.
  unfold _analyze_chord_sequence.
  change (map chord (e :: chords_data)) with (chord <$> e :: chords_data).
  destruct (estimate_key _). reflexivity.
Qed.

(** X3: [_estimate_key_from_chords], which nothing calls, gives for the
    sequence of any summary the key and the mode that
    [_analyze_chord_sequence] has put into the summary. *)
Theorem estimate_key_from_chords_agrees (chords_data : list (ChordEvent F)) :
  let s := _analyze_chord_sequence chords_data in
  _estimate_key_from_chords (chord_sequence s) = (key s, mode s).
Proof.
  cbv zeta. rewrite analyze_chord_sequence_sequence.
  destruct chords_data as [|e chords_data]; [reflexivity|].
  rewrite analyze_chord_sequence_key by done.
  unfold _estimate_key_from_chords, most_common_of.
  set (c := Counter_of (chord <$> e :: chords_data)).
  destruct (most_common_1 c) as [[mc n]|] eqn:Hbest.
  - destruct c as [|x c]; [discriminate|]. rewrite Hbest.
    cbn [fmap option_fmap option_map fst estimate_key].
    destruct (decide (mc = "N")) as [->|HN].
    + rewrite decide_False by (intros [_ HN]; done). reflexivity.
    + destruct (decide (mc = "")) as [->|He].
      * rewrite decide_False by (intros [He _]; done). reflexivity.
      * rewrite decide_True by done. reflexivity.
  - apply most_common_1_nil_iff in Hbest. rewrite Hbest. reflexivity.
Qed.

End KeyEstimate.

(** ** What the merge keeps of the frames *)

Section MergeCoverage.
Context {F : Type} `{PyFloat F}.

Lemma frame_labels_snd (chords : list Z) :
  snd <$> frame_labels (F:=F) chords = _get_chord_name <$> chords.
Proof.
  unfold frame_labels. rewrite fmap_imap.
  rewrite <- (imap_const _get_chord_name). apply imap_ext. reflexivity.
Qed.

Lemma frame_labels_length (chords : list Z) :
  length (frame_labels (F:=F) chords) = length chords.
Proof. unfold frame_labels. apply length_imap. Qed.

Lemma segments_from_labels (t : F) (l : string) (frames : list (F * string))
    (x : string) :
  x ∈ chord <$> segments_from t l frames <-> x = l \/ x ∈ snd <$> frames.
Proof.
  revert t l. induction frames as [|[t' l'] frames IH]; intros t l;
    cbn [segments_from].
  - cbn. rewrite list_elem_of_singleton, elem_of_nil. tauto.
  - rewrite fmap_cons, elem_of_cons. cbn [snd].
    destruct (decide (l' = l)) as [->|Hne].
    + rewrite IH. tauto.
    + rewrite fmap_cons, elem_of_cons, IH. cbn [chord]. tauto.
Qed.

Lemma segments_from_length (t : F) (l : string) (frames : list (F * string)) :
  (1 <= length (segments_from t l frames) <= S (length frames))%nat.
Proof.
  revert t l. induction frames as [|[t' l'] frames IH]; intros t l;
    cbn [segments_from length].
  - lia.
  - destruct (decide (l' = l)).
    + specialize (IH t l). lia.
    + specialize (IH t' l'). cbn [length]. lia.
Qed.

Lemma segments_from_last_label (t : F) (l : string) (frames : list (F * string)) :
  last (chord <$> segments_from t l frames) = last (l :: (snd <$> frames)).
Proof.
  revert t l. induction frames as [|[t' l'] frames IH]; intros t l;
    cbn [segments_from].
  - reflexivity.
  - rewrite fmap_cons. cbn [snd]. rewrite last_cons_cons.
    destruct (decide (l' = l)) as [->|Hne].
    + rewrite IH. destruct (snd <$> frames); reflexivity.
    + destruct (segments_from_head t' l' frames) as (e0 & rest & Heq & _).
      rewrite fmap_cons. rewrite Heq at 1. rewrite fmap_cons, last_cons_cons.
      rewrite <- fmap_cons, <- Heq. apply IH.
Qed.

Lemma segments_from_single (t : F) (l : string) (frames : list (F * string)) :
  segments_from t l frames = [mkChordEvent t l lit_0_5 lit_0_85]
  <-> Forall (fun frame => frame.2 = l) frames.
Proof.
  revert t l. induction frames as [|[t' l'] frames IH]; intros t l;
    cbn [segments_from].
  - split; [constructor | reflexivity].
  - rewrite Forall_cons. cbn [snd]. destruct (decide (l' = l)) as [->|Hne].
    + rewrite IH. tauto.
    + split; [|tauto]. intros Heq.
      destruct (segments_from_head t' l' frames) as (e0 & rest & Hhead & _).
      rewrite Hhead in Heq. discriminate.
Qed.

(** X5: converting the frames to events loses no label and invents none:
    the labels of the events are the labels of the frames; there is no
    event exactly for no frame, and never more events than frames; the
    first and the last event carry the labels of the first and the last
    frame. *)
Theorem convert_keeps_labels (chords : list Z) :
  let events := convert_to_structured (F:=F) chords in
  (forall x, x ∈ chord <$> events <-> x ∈ _get_chord_name <$> chords)
  /\ (events = [] <-> chords = [])
  /\ (length events <= length chords)%nat
  /\ head (chord <$> events) = head (_get_chord_name <$> chords)
  /\ last (chord <$> events) = last (_get_chord_name <$> chords).
Proof.
  cbv zeta. rewrite convert_to_structured_merge, <- (frame_labels_snd chords).
  rewrite <- (frame_labels_length chords).
  assert (frame_labels (F:=F) chords = [] <-> chords = []) as Hnil.
  { destruct chords; [done|]. split; discriminate. }
  rewrite <- Hnil. clear Hnil.
  destruct (frame_labels chords) as [|[t l] frames].
  - rewrite merge_frames_nil. repeat split; done || (cbn [length]; lia).
  - rewrite merge_frames_cons.
    pose proof (segments_from_length t l frames) as Hlen.
    destruct (segments_from_head t l frames) as (e0 & rest & Heq & _ & Hl).
    split; [|split; [|split; [|split]]].
    + intros x. rewrite segments_from_labels, fmap_cons, elem_of_cons. reflexivity.
    + rewrite Heq. split; discriminate.
    + cbn [length]. lia.
    + rewrite Heq. cbn. rewrite Hl. reflexivity.
    + rewrite segments_from_last_label. reflexivity.
Qed.

(** The events are none exactly for no frames. *)
Lemma convert_to_structured_nil_iff (chords : list Z) :
  convert_to_structured (F:=F) chords = [] <-> chords = [].
Proof.
  rewrite convert_to_structured_merge.
  destruct chords as [|c chords]; [done|].
  unfold frame_labels. cbn [imap]. rewrite merge_frames_cons.
  destruct (segments_from_head (int_truediv (Z.of_nat 0) fps) (_get_chord_name c)
              (imap ((fun i c => (int_truediv (Z.of_nat i) fps, _get_chord_name c)) ∘ S)
                    chords)) as (e0 & rest & Heq & _).
  rewrite Heq. split; discriminate.
Qed.

Lemma convert_to_structured_labels (chords : list Z) (x : string) :
  x ∈ chord <$> convert_to_structured (F:=F) chords -> x ∈ _get_chord_name <$> chords.
Proof.
  rewrite convert_to_structured_merge, <- (frame_labels_snd chords).
  destruct (frame_labels chords) as [|[t l] frames]; [done|].
  rewrite merge_frames_cons, segments_from_labels, fmap_cons, elem_of_cons. done.
Qed.

(** X10: the frames merge to a single event, from 0 and lasting the
    constant [0.5], exactly when they all carry one label, however many they
    are. *)
Theorem single_event_iff_one_label (c : Z) (chords : list Z) :
  convert_to_structured (F:=F) (c :: chords)
  = [mkChordEvent (int_truediv 0 fps) (_get_chord_name c) lit_0_5 lit_0_85]
  <-> Forall (fun c' => _get_chord_name c' = _get_chord_name c) chords.
Proof.
  rewrite convert_to_structured_merge.
  unfold frame_labels. cbn [imap]. change (Z.of_nat 0) with 0.
  rewrite merge_frames_cons, segments_from_single.
  rewrite <- (Forall_fmap snd (fun l => l = _get_chord_name c)).
  rewrite fmap_imap.
  rewrite <- (Forall_fmap _get_chord_name (fun l => l = _get_chord_name c)).
  rewrite <- (imap_const _get_chord_name).
  rewrite (imap_ext _ (fun (_ : nat) (c0 : Z) => _get_chord_name c0) chords);
    [reflexivity | done].
Qed.

End MergeCoverage.

(** ** The statistics of a summary *)

Lemma transitions_loop_lookup (seq : list string) (m : gmap string nat) (k : string) :
  transitions_loop seq m !! k
  = if decide (transition_occurrences k seq = 0%nat) then m !! k
    else Some (default 0 (m !! k) + transition_occurrences k seq)%nat.
Proof.
  revert m. induction seq as [|a seq IH]; intros m; [reflexivity|].
  destruct seq as [|b seq]; [reflexivity|].
  change (transitions_loop (a :: b :: seq) m) with
    (transitions_loop (b :: seq)
       (<[transition_key a b := (default 0 (m !! transition_key a b) + 1)%nat]> m)).
  change (transition_occurrences k (a :: b :: seq)) with
    ((if decide (transition_key a b = k) then 1 else 0)
     + transition_occurrences k (b :: seq))%nat.
  rewrite IH. destruct (decide (transition_key a b = k)) as [<-|Hne].
  - rewrite lookup_insert_eq.
    destruct (decide (transition_occurrences (transition_key a b) (b :: seq) = 0%nat))
      as [Hzero|Hpos]; rewrite decide_False by lia; f_equal;
      unfold default; cbn [from_option id]; lia.
  - rewrite lookup_insert_ne by done. rewrite Nat.add_0_l. reflexivity.
Qed.

Lemma transition_occurrences_pair (k : string) (seq : list string) :
  transition_occurrences k seq <> 0%nat ->
  exists i a b, seq !! i = Some a /\ seq !! S i = Some b /\ transition_key a b = k.
Proof.
  induction seq as [|a seq IH]; [done|].
  destruct seq as [|b seq]; [done|].
  change (transition_occurrences k (a :: b :: seq)) with
    ((if decide (transition_key a b = k) then 1 else 0)
     + transition_occurrences k (b :: seq))%nat.
  destruct (decide (transition_key a b = k)) as [Hk|Hne].
  - intros _. exists 0%nat, a, b. done.
  - rewrite Nat.add_0_l. intros Hpos.
    destruct (IH Hpos) as (i & a' & b' & Ha & Hb & Hk).
    exists (S i), a', b'. done.
Qed.

Lemma vocabulary_NoDup : NoDup vocabulary.
Proof. apply (bool_decide_eq_true_1 _). vm_compute. reflexivity. Qed.

Section Statistics.
Context {F : Type} `{PyFloat F}.

(** X4: the transition table of a summary holds, under the text of a
    transition, the number of adjacent pairs of the sequence with this
    text, and no entry for a text that no adjacent pair has. *)
Theorem transition_table_lookup (chords_data : list (ChordEvent F)) (k : string) :
  let s := _analyze_chord_sequence chords_data in
  chord_transitions s !! k
  = if decide (transition_occurrences k (chord_sequence s) = 0%nat) then None
    else Some (transition_occurrences k (chord_sequence s)).
Proof.
  cbv zeta.
  rewrite analyze_chord_sequence_sequence, analyze_chord_sequence_transitions.
  rewrite transitions_loop_lookup, lookup_empty. reflexivity.
Qed.

(** X6: in the summary of decoded frames every transition counted is one
    between two different labels of the frames: the table has no transition
    from a chord to itself. *)
Theorem no_self_transition (chords : list Z) (k : string) (n : nat) :
  chord_transitions (summarize (F:=F) chords) !! k = Some n ->
  exists a b, k = transition_key a b /\ a <> b
              /\ a ∈ _get_chord_name <$> chords
              /\ b ∈ _get_chord_name <$> chords
              /\ (1 <= n)%nat.
Proof.
  unfold summarize.
  rewrite analyze_chord_sequence_transitions, transitions_loop_lookup, lookup_empty.
  destruct (decide (transition_occurrences k
              (chord <$> convert_to_structured chords) = 0%nat)) as [|Hpos];
    [discriminate|].
  intros [= <-].
  destruct (transition_occurrences_pair _ _ Hpos) as (i & a & b & Ha & Hb & Hk).
  exists a, b. split; [done|].
  assert (a ∈ chord <$> convert_to_structured (F:=F) chords) as Hina
    by (eapply list_elem_of_lookup_2, Ha).
  assert (b ∈ chord <$> convert_to_structured (F:=F) chords) as Hinb
    by (eapply list_elem_of_lookup_2, Hb).
  split; [|split; [|split]].
  - apply list_lookup_fmap_Some in Ha as (ea & -> & Ha).
    apply list_lookup_fmap_Some in Hb as (eb & -> & Hb).
    rewrite convert_to_structured_merge in Ha, Hb.
    destruct (frame_labels chords) as [|[t l] frames]; [discriminate|].
    rewrite merge_frames_cons in Ha, Hb. eapply segments_from_distinct; eauto.
  - by apply convert_to_structured_labels.
  - by apply convert_to_structured_labels.
  - cbn [default from_option id]. lia.
Qed.

Lemma analyze_chord_sequence_unique (chords_data : list (ChordEvent F)) :
  unique_chords (_analyze_chord_sequence chords_data)
  = list_to_set (chord <$> chords_data).
Proof.
  destruct chords_data as [|e chords_data]; [reflexivity|].
  unfold _analyze_chord_sequence. destruct (estimate_key _). reflexivity.
Qed.

(** X7: the unique chords of the summary of decoded frames are the labels
    of the frames, as a set, and at most 25. *)
Theorem unique_chords_are_frame_labels (chords : list Z) :
  unique_chords (summarize (F:=F) chords) = list_to_set (_get_chord_name <$> chords)
  /\ (size (unique_chords (summarize (F:=F) chords)) <= 25)%nat.
Proof.
  assert (unique_chords (summarize (F:=F) chords)
          = list_to_set (_get_chord_name <$> chords)) as Heq.
  { unfold summarize. rewrite analyze_chord_sequence_unique.
    apply set_eq. intros x. rewrite !elem_of_list_to_set.
    rewrite convert_to_structured_merge, <- (frame_labels_snd chords).
    destruct (frame_labels chords) as [|[t l] frames]; [done|].
    rewrite merge_frames_cons, segments_from_labels, fmap_cons, elem_of_cons. done. }
  split; [exact Heq|]. rewrite Heq.
  transitivity (size (list_to_set (C:=gset string) vocabulary)).
  - apply subseteq_size. intros x. rewrite !elem_of_list_to_set.
    intros (c & -> & _)%list_elem_of_fmap.
    destruct (decide (c = 24)) as [->|Hne].
    + apply class_label_in_vocabulary. lia.
    + rewrite get_chord_name_reduce by done.
      pose proof (Z.mod_pos_bound c 12 ltac:(lia)).
      apply class_label_in_vocabulary. destruct (decide (c < 12)); lia.
  - rewrite size_list_to_set by apply vocabulary_NoDup. reflexivity.
Qed.

(** X2: in the summary of non-empty decoded frames the most common chord is
    the label of one of the frames; the key and the mode are both absent
    when this is the class 24, no chord, and else the key is the root of the
    class and the mode is major below 12 and minor from 12 on. *)
Theorem key_of_most_common_chord (chords : list Z) :
  chords <> [] ->
  let s := summarize (F:=F) chords in
  exists chord_idx,
    chord_idx ∈ chords
    /\ most_common_chord s = Some (_get_chord_name chord_idx)
    /\ (key s, mode s)
       = if decide (chord_idx = 24) then (None, None)
         else (Some (nth (Z.to_nat (chord_idx mod 12)) CHORD_NAMES ""),
               Some (if decide (chord_idx < 12) then "major" else "minor")).
Proof.
  intros Hne. cbv zeta. unfold summarize.
  assert (convert_to_structured (F:=F) chords <> []) as Hevents
    by (rewrite convert_to_structured_nil_iff; exact Hne).
  rewrite analyze_chord_sequence_most_common, analyze_chord_sequence_key by done.
  destruct (most_common_of_spec (chord <$> convert_to_structured (F:=F) chords))
    as (c & Hc & Hin & _).
  { destruct (convert_to_structured chords); [done | discriminate]. }
  apply convert_to_structured_labels, list_elem_of_fmap in Hin as (idx & -> & Hidx).
  exists idx. split; [exact Hidx|]. split; [exact Hc|]. rewrite Hc.
  destruct (decide (idx = 24)) as [->|Hne24]; [reflexivity|].
  by apply estimate_key_label.
Qed.

End Statistics.

Lemma key_of_most_common_chord_witness :
  example_chords <> []
  /\ exists chord_idx,
      chord_idx ∈ example_chords
      /\ most_common_chord (summarize (F:=float) example_chords)
         = Some (_get_chord_name chord_idx).
Proof.
  assert (example_chords <> []) as Hne by discriminate.
  split; [exact Hne|].
  destruct (key_of_most_common_chord (F:=float) example_chords Hne)
    as (idx & Hin & Hmc & _).
  exists idx. split; assumption.
Defined.

Lemma no_self_transition_witness :
  chord_transitions (summarize (F:=float) example_chords) !! "C:maj -> G:maj" = Some 1%nat
  /\ exists a b, "C:maj -> G:maj" = transition_key a b /\ a <> b.
Proof.
  assert (chord_transitions (summarize (F:=float) example_chords) !! "C:maj -> G:maj"
          = Some 1%nat) as Hk by (vm_compute; reflexivity).
  split; [exact Hk|].
  destruct (no_self_transition (F:=float) example_chords _ _ Hk)
    as (a & b & Hab & Hne & _).
  exists a, b. split; assumption.
Defined.

(** * Further properties of whisper_transcription.py *)

Section TranscriberFacts.
Context {F : Type} `{PyFloat F}.

(** The three ways [transcribe] ends. *)
Lemma transcribe_cases (w : World F) (audio_path : string)
    (language : option string) (st : RunState) :
  transcribe w audio_path language st
  = if whisper_client w then
      match whisper_create w audio_path language with
      | Ok response =>
          (Ok (Some (lyrics_of_response response
                       (fsub (time_time w (S (clock_reads st)))
                             (time_time w (clock_reads st))))),
           mkRunState (invoked st) (S (S (clock_reads st))))
      | Raise _ => (Ok None, mkRunState (invoked st) (S (clock_reads st)))
      end
    else (Ok None, st).
Proof.
  unfold transcribe. destruct (whisper_client w); [|reflexivity].
  unfold try_except, mbind, M_bind, mret, M_ret, lift, read_clock.
  cbn [invoked clock_reads].
  destruct (whisper_create w audio_path language); reflexivity.
Qed.

(** X11: [transcribe] never raises, whatever the client answers, and
    invokes no stage of the pipeline; it returns lyrics exactly when there
    is a client and the request succeeds; without a client it does not
    even read the clock. *)
Theorem transcribe_never_raises (w : World F) (audio_path : string)
    (language : option string) (st : RunState) :
  exists result st',
    transcribe w audio_path language st = (Ok result, st')
    /\ invoked st' = invoked st
    /\ (is_Some result <->
        whisper_client w = true
        /\ exists response, whisper_create w audio_path language = Ok response)
    /\ (whisper_client w = false -> st' = st).
Proof.
  rewrite transcribe_cases. destruct (whisper_client w).
  - destruct (whisper_create w audio_path language) as [response|e].
    + eexists _, _. split; [reflexivity|]. split; [reflexivity|].
      split; [|discriminate]. split; [eauto | intros _; by eexists].
    + eexists _, _. split; [reflexivity|]. split; [reflexivity|].
      split; [|discriminate].
      split; [intros [? [=]] | intros [_ [? [=]]]].
  - eexists _, _. split; [reflexivity|]. split; [reflexivity|].
    split; [|done]. split; [intros [? [=]] | intros [[=] _]].
Qed.

(** X12: the confidence of the lyrics is absent exactly when no segment
    of the answer carries a confidence (it is not counted as zero), the
    segments are absent exactly when the answer has none, and the text is
    always present. *)
Theorem lyrics_of_response_fields (response : WhisperResponse F) (elapsed : F) :
  let l := lyrics_of_response response elapsed in
  (lyrics_confidence l = None <->
   Forall (fun s => seg_confidence s = None) (default [] (resp_segments response)))
  /\ (lyrics_segments l = None <-> default [] (resp_segments response) = [])
  /\ lyrics_text l = Some (resp_text response)
  /\ processing_time l = Some elapsed.
Proof.
  cbv zeta. unfold lyrics_of_response.
  set (segments := default [] (resp_segments response)).
  cbn [lyrics_confidence lyrics_segments lyrics_text processing_time].
  split; [|split; [|done]].
  - assert (omap seg_confidence segments = []
            <-> Forall (fun s => seg_confidence s = None) segments) as Hnone.
    { induction segments as [|s segments IH]; [split; [constructor|done]|].
      rewrite Forall_cons. cbn [omap list_omap].
      destruct (seg_confidence s) as [c|]; [split; [discriminate|intros [[=] _]]|].
      rewrite IH. tauto. }
    rewrite <- Hnone. destruct (omap seg_confidence segments); split; done.
  - destruct segments; split; done.
Qed.

(** X13: [transcribe_with_translation] never raises; it returns nothing
    without a client or when the translation request fails; when the
    translation succeeds it returns the translation, also when the
    transcription failed, which is then absent in the result. *)
Theorem transcribe_with_translation_result (w : World F)
    (translations_create : string -> result string) (audio_path : string)
    (st : RunState) :
  exists result st',
    transcribe_with_translation w translations_create audio_path st = (Ok result, st')
    /\ (whisper_client w = false -> result = None /\ st' = st)
    /\ (forall e, translations_create audio_path = Raise e -> result = None)
    /\ (forall text, whisper_client w = true ->
          translations_create audio_path = Ok text ->
          exists t, result = Some {| transcription := t; translation := text |}
                    /\ (is_Some t <->
                        exists response, whisper_create w audio_path None = Ok response)).
Proof.
  unfold transcribe_with_translation.
  destruct (whisper_client w) eqn:Hclient.
  - unfold try_except, mbind, M_bind, mret, M_ret, lift.
    rewrite transcribe_cases, Hclient.
    destruct (whisper_create w audio_path None) as [response|e0];
      destruct (translations_create audio_path) as [text|e1];
      eexists _, _; (split; [reflexivity|]); (split; [discriminate|]);
      (split; [first [done | intros e [=]]|]); intros text' _ Htext;
      try discriminate; injection Htext as <-;
      eexists; (split; [reflexivity|]).
    + split; [intros _; by eexists | eauto].
    + split; [intros [? [=]] | intros [? [=]]].
  - eexists _, _. split; [reflexivity|]. split; [done|]. split; [done|].
    discriminate.
Qed.

End TranscriberFacts.

(** * Further properties of audio_analyzer.py *)

(** The stages of a complete run, in order. *)
Ltac run_cases w audio_path :=
  unfold_run;
  destruct (os_path_getsize w audio_path) as [?size|?e];
  [destruct (librosa_extract_all_features w audio_path) as [[[?lf ?d] ?sr]|?e];
   [destruct (essentia_extract_all_features w audio_path) as [?ef|?e];
    [destruct (analyze_returns w audio_path) as [?progression ->];
     destruct (validate_year w (_extract_metadata w audio_path !! "year"))
       as [?validated|?e] |]|]|].

Section PipelineFacts.
Context {F : Type} `{PyFloat F}.

(** X15: whatever the collaborators answer, the stages a run has invoked
    are a beginning of the order metadata, file size, first extractor,
    second extractor, chords, lyrics; the metadata and the file size are
    always read; and the lyrics stage is invoked only with
    [extract_lyrics]. *)
Theorem stages_in_order (w : World F) (audio_path source : string)
    (source_path : option string) (extract_lyrics : bool) :
  let st := (run_analysis w audio_path source source_path extract_lyrics).2 in
  invoked st `prefix_of` [StageMetadata; StageFileSize; StageLibrosa; StageEssentia;
                          StageChords; StageLyrics]
  /\ [StageMetadata; StageFileSize] `prefix_of` invoked st
  /\ (StageLyrics ∈ invoked st -> extract_lyrics = true).
Proof.
  cbv zeta. run_cases w audio_path.
  1,2: destruct extract_lyrics;
    [destruct (whisper_client w); [destruct (whisper_create w audio_path None)|]|].
  all: cbn [snd invoked]; (split; [|split]); try (by eexists); try done.
  all: intros Hin; repeat (apply elem_of_cons in Hin as [[=]|Hin]);
    by apply elem_of_nil in Hin.
Qed.

(** X16: when the second extractor raises after the first one succeeded,
    the run raises that exception, the chord analysis and the
    transcription are not invoked and the clock is not read again; when
    the file size cannot be read, no extractor is invoked. *)
Theorem later_failures (w : World F) (audio_path source : string)
    (source_path : option string) (extract_lyrics : bool) (e : exn) :
  (os_path_getsize w audio_path = Raise e ->
   run_analysis w audio_path source source_path extract_lyrics
   = (Raise e, mkRunState [StageMetadata; StageFileSize] 1))
  /\ (forall size answer,
        os_path_getsize w audio_path = Ok size ->
        librosa_extract_all_features w audio_path = Ok answer ->
        essentia_extract_all_features w audio_path = Raise e ->
        run_analysis w audio_path source source_path extract_lyrics
        = (Raise e, mkRunState [StageMetadata; StageFileSize; StageLibrosa;
                                StageEssentia] 1)).
Proof.
  split.
  - intros Hsize. unfold_run. rewrite Hsize. reflexivity.
  - intros size [[lf d] sr] Hsize Hlibrosa Hessentia.
    unfold_run. rewrite Hsize, Hlibrosa, Hessentia. reflexivity.
Qed.

(** X17: without [extract_lyrics] a run does not depend on the
    transcription service: two processes that differ in it only (the tag
    reader, the file system, the extractors, the recognizer, the clock and
    the validation answer alike) give the same outcome, with no lyrics in
    the record. *)
Theorem lyrics_not_requested (w w' : World F) (audio_path source : string)
    (source_path : option string) :
  MutagenFile w audio_path = MutagenFile w' audio_path ->
  os_path_getsize w audio_path = os_path_getsize w' audio_path ->
  librosa_extract_all_features w audio_path
  = librosa_extract_all_features w' audio_path ->
  essentia_extract_all_features w audio_path
  = essentia_extract_all_features w' audio_path ->
  madmom_decode w audio_path = madmom_decode w' audio_path ->
  (forall n, time_time w n = time_time w' n) ->
  (forall text, pydantic_int w text = pydantic_int w' text) ->
  run_analysis w audio_path source source_path false
  = run_analysis w' audio_path source source_path false
  /\ (forall record st,
        run_analysis w audio_path source source_path false = (Ok record, st) ->
        lyrics (features record) = None
        /\ invoked st = [StageMetadata; StageFileSize; StageLibrosa; StageEssentia;
                         StageChords]
        /\ clock_reads st = 2%nat).
Proof.
  intros Hmeta Hsize Hlibrosa Hessentia Hmadmom Hclock Hint.
  assert (analyze w audio_path = analyze w' audio_path) as Hanalyze
    by (unfold analyze, _detect_chords_madmom; rewrite Hmadmom; reflexivity).
  assert (_extract_metadata w audio_path = _extract_metadata w' audio_path) as Hdict
    by (unfold _extract_metadata; rewrite Hmeta; reflexivity).
  assert (forall entry, validate_year w entry = validate_year w' entry) as Hyear.
  { intros [[text|n]|]; cbn [validate_year]; [|reflexivity..].
    rewrite Hint. reflexivity. }
  split.
  - unfold_run. rewrite Hdict, Hyear, Hsize, Hlibrosa, Hessentia, Hanalyze.
    destruct (os_path_getsize w' audio_path); [|rewrite ?Hclock; reflexivity].
    destruct (librosa_extract_all_features w' audio_path) as [[[lf d] sr]|];
      [|rewrite ?Hclock; reflexivity].
    destruct (essentia_extract_all_features w' audio_path);
      [|rewrite ?Hclock; reflexivity].
    destruct (analyze w' audio_path); cbn [clock_reads]; rewrite ?Hclock; reflexivity.
  - intros record st. run_cases w audio_path; intros [= <- <-]. done.
Qed.

(** X18: when every collaborator answers, the year passes the
    validation and the transcription succeeds, the record holds the lyrics
    of the answer, timed between the second and the third reading of the
    clock, and the total time between the first and the fourth; the file
    name is the base name of the path and the year is the validated one. *)
Theorem complete_run (w : World F) (audio_path origin : string)
    (origin_path : option string) (size rate : Z) (duration : F)
    (librosa_features essentia_features : FeatureSet F)
    (response : WhisperResponse F) (validated : option Z) :
  os_path_getsize w audio_path = Ok size ->
  librosa_extract_all_features w audio_path = Ok (librosa_features, duration, rate) ->
  essentia_extract_all_features w audio_path = Ok essentia_features ->
  whisper_client w = true ->
  whisper_create w audio_path None = Ok response ->
  validate_year w (_extract_metadata w audio_path !! "year") = Ok validated ->
  exists record progression,
    run_analysis w audio_path origin origin_path true
    = (Ok record, mkRunState [StageMetadata; StageFileSize; StageLibrosa;
                              StageEssentia; StageChords; StageLyrics] 4)
    /\ lyrics (features record)
       = Some (lyrics_of_response response (fsub (time_time w 2) (time_time w 1)))
    /\ processing_time_total record = Some (fsub (time_time w 3) (time_time w 0))
    /\ filename record = basename audio_path
    /\ source record = origin /\ source_path record = origin_path
    /\ year record = validated
    /\ analyze w audio_path = Ok progression
    /\ chord_progression (features record) = Some progression.
Proof.
  intros Hsize Hlibrosa Hessentia Hclient Hcreate Hyear.
  destruct (analyze_returns w audio_path) as [progression Hanalyze].
  unfold_run. rewrite Hsize, Hlibrosa, Hessentia, Hanalyze, Hclient, Hcreate, Hyear.
  eexists _, progression. split; [reflexivity|]. cbn. repeat split.
Qed.

(** X31: a transcription that fails, for want of a client or by an
    exception of the request, changes nothing in what a run raises: the run
    raises an exception exactly when the run without the lyrics does; a
    record that is returned has no lyrics; and when the file size, the two
    extractions and the validation of the year succeed, a record is
    returned, with both feature sets, a chord progression, the size,
    duration and sample rate of the file, after every stage was invoked
    once, in order. *)
Theorem failed_transcription_is_absorbed (w : World F) (audio_path source : string)
    (source_path : option string) :
  (whisper_client w = false \/ exists e, whisper_create w audio_path None = Raise e) ->
  (forall e,
      (exists st, run_analysis w audio_path source source_path true = (Raise e, st))
      <-> (exists st, run_analysis w audio_path source source_path false = (Raise e, st)))
  /\ (forall record st,
        run_analysis w audio_path source source_path true = (Ok record, st) ->
        lyrics (features record) = None)
  /\ (forall size rate duration librosa_features essentia_features validated,
        os_path_getsize w audio_path = Ok size ->
        librosa_extract_all_features w audio_path
        = Ok (librosa_features, duration, rate) ->
        essentia_extract_all_features w audio_path = Ok essentia_features ->
        validate_year w (_extract_metadata w audio_path !! "year") = Ok validated ->
        exists record st progression,
          run_analysis w audio_path source source_path true = (Ok record, st)
          /\ lyrics (features record) = None
          /\ librosa (features record) = Some librosa_features
          /\ essentia (features record) = Some essentia_features
          /\ chord_progression (features record) = Some progression
          /\ analyze w audio_path = Ok progression
          /\ file_size record = size
          /\ audio_duration record = duration
          /\ sample_rate record = rate
          /\ year record = validated
          /\ invoked st = [StageMetadata; StageFileSize; StageLibrosa; StageEssentia;
                           StageChords; StageLyrics]).
Proof.
  intros Hfail.
  assert (forall st, transcribe w audio_path None st
                     = (Ok None, mkRunState (invoked st)
                                   (if whisper_client w then S (clock_reads st)
                                    else clock_reads st))) as Hnone.
  { intros st. rewrite transcribe_cases. destruct (whisper_client w).
    - destruct Hfail as [[=] | [e ->]]. reflexivity.
    - by destruct st. }
  split; [|split].
  - intros e.
    unfold run_analysis, analyze_audio, extract_features.
    unfold mbind, M_bind, mret, M_ret, try_except, lift, enter, read_clock, raise,
      initial_state.
    cbn [invoked clock_reads app].
    destruct (os_path_getsize w audio_path) as [size|e0]; [|done].
    destruct (librosa_extract_all_features w audio_path) as [[[lf d] sr]|e0];
      [|split; intros [st [= ->]]; by eexists].
    destruct (essentia_extract_all_features w audio_path) as [ef|e0];
      [|split; intros [st [= ->]]; by eexists].
    destruct (analyze_returns w audio_path) as [progression ->].
    rewrite Hnone. cbn [invoked clock_reads].
    destruct (validate_year w (_extract_metadata w audio_path !! "year"));
      split; intros [st [=]]; subst; by eexists.
  - intros record st.
    unfold run_analysis, analyze_audio, extract_features.
    unfold mbind, M_bind, mret, M_ret, try_except, lift, enter, read_clock, raise,
      initial_state.
    cbn [invoked clock_reads app].
    destruct (os_path_getsize w audio_path) as [size|e0]; [|discriminate].
    destruct (librosa_extract_all_features w audio_path) as [[[lf d] sr]|e0];
      [|discriminate].
    destruct (essentia_extract_all_features w audio_path) as [ef|e0]; [|discriminate].
    destruct (analyze_returns w audio_path) as [progression ->].
    rewrite Hnone. cbn [invoked clock_reads].
    destruct (validate_year w (_extract_metadata w audio_path !! "year"));
      [|discriminate].
    by intros [= <- _].
  - intros size rate duration lf ef validated Hsize Hlibrosa Hessentia Hyear.
    destruct (analyze_returns w audio_path) as [progression Hanalyze].
    unfold run_analysis, analyze_audio, extract_features.
    unfold mbind, M_bind, mret, M_ret, try_except, lift, enter, read_clock, raise,
      initial_state.
    cbn [invoked clock_reads app].
    rewrite Hsize, Hlibrosa, Hessentia, Hanalyze, Hnone. cbn [invoked clock_reads].
    rewrite Hyear. eexists _, _, progression. repeat split; reflexivity.
Qed.

End PipelineFacts.

Lemma lyrics_not_requested_witness :
  MutagenFile studio "song.mp3" = MutagenFile studio_with_lyrics "song.mp3"
  /\ run_analysis studio "song.mp3" "upload" None false
     = run_analysis studio_with_lyrics "song.mp3" "upload" None false.
Proof.
  split; [reflexivity|].
  exact (proj1 (lyrics_not_requested studio studio_with_lyrics "song.mp3" "upload" None
                  eq_refl eq_refl eq_refl eq_refl eq_refl (fun n => eq_refl)
                  (fun text => eq_refl))).
Defined.

Lemma failed_transcription_is_absorbed_witness :
  whisper_create studio "song.mp3" None = Raise (mkExn "APIError" "rate limit reached")
  /\ validate_year studio (_extract_metadata studio "song.mp3" !! "year")
     = Ok (Some 2019)
  /\ exists record st,
      run_analysis studio "song.mp3" "upload" None true = (Ok record, st)
      /\ lyrics (features record) = None
      /\ year record = Some 2019.
Proof.
  assert (validate_year studio (_extract_metadata studio "song.mp3" !! "year")
          = Ok (Some 2019)) as Hyear by (vm_compute; reflexivity).
  split; [reflexivity|]. split; [exact Hyear|].
  destruct (proj2 (proj2 (failed_transcription_is_absorbed studio "song.mp3" "upload" None
              (or_intror (ex_intro _ (mkExn "APIError" "rate limit reached") eq_refl))))
              1024 22050 0.5%float [("tempo", [120%float])] [("bpm", [120%float])]
              (Some 2019) eq_refl eq_refl eq_refl Hyear)
    as (record & st & progression & Hrun & Hlyrics & _ & _ & _ & _ & _ & _ & _ & Hvalid & _).
  exists record, st. repeat split; assumption.
Defined.

Lemma complete_run_witness :
  whisper_client studio_with_lyrics = true
  /\ validate_year studio_with_lyrics
       (_extract_metadata studio_with_lyrics "/tmp/music_uploads/song.mp3" !! "year")
     = Ok (Some 2019)
  /\ exists record,
      (run_analysis studio_with_lyrics "/tmp/music_uploads/song.mp3" "upload" None true).1
      = Ok record
      /\ filename record = "song.mp3"
      /\ year record = Some 2019
      /\ processing_time_total record = Some 3%float.
Proof.
  assert (validate_year studio_with_lyrics
            (_extract_metadata studio_with_lyrics "/tmp/music_uploads/song.mp3" !! "year")
          = Ok (Some 2019)) as Hyear by (vm_compute; reflexivity).
  split; [reflexivity|]. split; [exact Hyear|].
  destruct (complete_run studio_with_lyrics "/tmp/music_uploads/song.mp3" "upload" None
              1024 22050 0.5%float [("tempo", [120%float])] [("bpm", [120%float])] _
              (Some 2019) eq_refl eq_refl eq_refl eq_refl eq_refl Hyear)
    as (record & progression & Hrun & _ & Htotal & Hname & _ & _ & Hvalidated & _).
  exists record. rewrite Hrun. split; [reflexivity|].
  split; [rewrite Hname; reflexivity|].
  split; [exact Hvalidated | rewrite Htotal; vm_compute; reflexivity].
Defined.

(** ** The metadata *)

(** Reading the tags only adds texts, under keys of the mapping. *)
Lemma read_tags_entries (audio_file : gmap string TagValue)
    (mapping : list (string * list string)) (metadata : gmap string MetaValue)
    (k : string) (v : MetaValue) :
  (read_tags audio_file mapping metadata).1 !! k = Some v ->
  metadata !! k = Some v \/ (k ∈ mapping.*1 /\ exists text, v = MetaStr text).
Proof.
  revert metadata. induction mapping as [|[key possible_tags] mapping IH];
    intros metadata; cbn [read_tags]; [by left|].
  rewrite fmap_cons, elem_of_cons. cbn [fst].
  destruct (first_tag audio_file possible_tags) as [value|].
  - destruct (str_of_tag value) as [text|e]; [|by left].
    intros [Hk|[Hk Hv]]%IH; [|by right; split; [right|]].
    destruct (decide (k = key)) as [->|Hne].
    + rewrite lookup_insert_eq in Hk. injection Hk as <-. right. split; [by left|by eexists].
    + rewrite lookup_insert_ne in Hk by done. by left.
  - intros [Hk|[Hk Hv]]%IH; [by left | by right; split; [right|]].
Qed.

(** A key that the mapping does not name keeps its entry. *)
Lemma read_tags_other_key (audio_file : gmap string TagValue)
    (mapping : list (string * list string)) (metadata : gmap string MetaValue)
    (k : string) :
  k ∉ mapping.*1 ->
  (read_tags audio_file mapping metadata).1 !! k = metadata !! k.
Proof.
  revert metadata. induction mapping as [|[key possible_tags] mapping IH];
    intros metadata; cbn [read_tags]; [done|].
  rewrite fmap_cons, not_elem_of_cons. cbn [fst]. intros [Hne Hnin].
  destruct (first_tag audio_file possible_tags) as [value|]; [|by apply IH].
  destruct (str_of_tag value) as [text|e]; [|done].
  rewrite IH by done. by rewrite lookup_insert_ne.
Qed.

(** An empty list under the tag chosen for a key stops the reading no later
    than at this key. *)
Lemma read_tags_stops (audio_file : gmap string TagValue)
    (mapping : list (string * list string)) (metadata : gmap string MetaValue)
    (i : nat) (key : string) (possible_tags : list string) :
  mapping !! i = Some (key, possible_tags) ->
  first_tag audio_file possible_tags = Some (TagList []) ->
  is_Some (read_tags audio_file mapping metadata).2
  /\ forall k, (read_tags audio_file mapping metadata).1 !! k
               = (read_tags audio_file (take i mapping) metadata).1 !! k
               \/ (read_tags audio_file mapping metadata).1 !! k = None
                  /\ k ∈ (take i mapping).*1.
Proof.
  revert metadata i. induction mapping as [|[key0 possible0] mapping IH];
    intros metadata i Hi Hempty; [done|].
  destruct i as [|i].
  - injection Hi as -> ->. cbn [read_tags take]. rewrite Hempty. cbn [str_of_tag snd fst].
    split; [by eexists | by left].
  - cbn [lookup list_lookup] in Hi. cbn [read_tags take].
    destruct (first_tag audio_file possible0) as [value|].
    + destruct (str_of_tag value) as [text|e].
      * destruct (IH (<[key0 := MetaStr text]> metadata) i Hi Hempty) as [Hraise Hk].
        split; [exact Hraise|]. intros k. destruct (Hk k) as [Heq|[Hnone Hin]].
        -- by left.
        -- right. split; [exact Hnone|]. rewrite fmap_cons. by right.
      * cbn [snd fst]. split; [by eexists | by left].
    + destruct (IH metadata i Hi Hempty) as [Hraise Hk].
      split; [exact Hraise|]. intros k. destruct (Hk k) as [Heq|[Hnone Hin]].
      * by left.
      * right. split; [exact Hnone|]. rewrite fmap_cons. by right.
Qed.

Lemma search_4_digits_skip (a b c e : ascii) (s : string) :
  is_digit a && is_digit b && is_digit c && is_digit e = false ->
  search_4_digits (String a (String b (String c (String e s))))
  = search_4_digits (String b (String c (String e s))).
Proof. intros Hd. cbn [search_4_digits]. rewrite Hd. reflexivity. Qed.

(** What [search_4_digits] finds is four digits of the string, and no four
    digits in a row start before them. *)
Lemma search_4_digits_Some (s d : string) :
  search_4_digits s = Some d ->
  String.length d = 4%nat /\ all_digits d = true
  /\ exists before after, s = before +:+ d +:+ after
                          /\ search_4_digits (before +:+ String.substring 0 3 d) = None.
Proof.
  induction s as [|a s IH]; [discriminate|]. cbn [search_4_digits].
  destruct s as [|b [|c [|e s]]]; try discriminate.
  destruct (is_digit a && is_digit b && is_digit c && is_digit e) eqn:Hd.
  - intros [= <-].
    apply andb_prop in Hd as [Hd He]. apply andb_prop in Hd as [Hd Hc].
    apply andb_prop in Hd as [Ha Hb].
    split; [reflexivity|]. split; [cbn; by rewrite Ha, Hb, Hc, He|].
    exists "", s. split; reflexivity.
  - intros Hrest. destruct (IH Hrest) as (Hlen & Hall & before & after & Hs & Hnone).
    split; [exact Hlen|]. split; [exact Hall|].
    exists (String a before), after.
    split; [rewrite Hs; reflexivity|].
    assert (exists x, before +:+ String.substring 0 3 d
                      = String b (String c (String e x))) as [x Hx].
    { destruct d as [|d1 [|d2 [|d3 [|d4 [|]]]]]; try discriminate.
      destruct before as [|b1 [|b2 [|b3 before]]]; cbn in Hs |- *;
        injection Hs as -> -> -> _; eexists; reflexivity. }
    change (String a before +:+ String.substring 0 3 d)
      with (String a (before +:+ String.substring 0 3 d)).
    rewrite Hx in Hnone |- *.
    rewrite search_4_digits_skip by exact Hd. exact Hnone.
Qed.

Lemma search_4_digits_None (s : string) :
  search_4_digits s = None ->
  forall before d after,
    s = before +:+ d +:+ after -> String.length d = 4%nat -> all_digits d = false.
Proof.
  intros Hnone before. revert s Hnone.
  induction before as [|a before IH]; intros s Hnone d after -> Hlen.
  - destruct d as [|d1 [|d2 [|d3 [|d4 [|]]]]]; try discriminate.
    change ("" +:+ String d1 (String d2 (String d3 (String d4 ""))) +:+ after)
      with (String d1 (String d2 (String d3 (String d4 after)))) in Hnone.
    cbn [search_4_digits] in Hnone.
    destruct (is_digit d1 && is_digit d2 && is_digit d3 && is_digit d4) eqn:Hd;
      [discriminate|].
    cbn [all_digits]. rewrite andb_true_r, !andb_assoc. exact Hd.
  - refine (IH (before +:+ d +:+ after) _ d after eq_refl Hlen).
    change (String a before +:+ d +:+ after)
      with (String a (before +:+ d +:+ after)) in Hnone.
    destruct (before +:+ d +:+ after) as [|b [|c [|e s]]] eqn:Hrest; try reflexivity.
    cbn [search_4_digits] in Hnone.
    destruct (is_digit a && is_digit b && is_digit c && is_digit e);
      [discriminate | exact Hnone].
Qed.

Lemma digit_value (c : ascii) :
  is_digit c = true -> 0 <= Z.of_nat (nat_of_ascii c) - 48 <= 9.
Proof.
  unfold is_digit. intros [Hlo Hhi]%andb_prop.
  apply Nat.leb_le in Hlo, Hhi. lia.
Qed.

Lemma int_of_four_digits (d : string) :
  String.length d = 4%nat -> all_digits d = true -> 0 <= int_of_digits 0 d <= 9999.
Proof.
  destruct d as [|d1 [|d2 [|d3 [|d4 [|]]]]]; try discriminate. intros _.
  cbn [all_digits]. rewrite andb_true_r.
  intros [H1 [H2 [H3 H4]%andb_prop]%andb_prop]%andb_prop.
  apply digit_value in H1, H2, H3, H4. cbn [int_of_digits]. lia.
Qed.

(** X22: the year rule, [re.search(r'\d{4}', ...)] and [int]: what is
    found is four digits of the text with no four digits in a row starting
    before them, and the year is between 0 and 9999; nothing is found only
    in a text without four digits in a row. *)
Theorem leftmost_four_digits (s : string) :
  match search_4_digits s with
  | Some d =>
      String.length d = 4%nat /\ all_digits d = true
      /\ 0 <= int_of_digits 0 d <= 9999
      /\ exists before after,
           s = before +:+ d +:+ after
           /\ search_4_digits (before +:+ String.substring 0 3 d) = None
  | None =>
      forall before d after,
        s = before +:+ d +:+ after -> String.length d = 4%nat -> all_digits d = false
  end.
Proof.
  destruct (search_4_digits s) as [d|] eqn:Hs.
  - destruct (search_4_digits_Some s d Hs) as (Hlen & Hall & Hwhere).
    split; [exact Hlen|]. split; [exact Hall|].
    split; [by apply int_of_four_digits | exact Hwhere].
  - by apply search_4_digits_None.
Qed.

Lemma tag_mapping_keys :
  tag_mapping.*1 = ["title"; "artist"; "album"; "genre"; "year"].
Proof. reflexivity. Qed.

Lemma read_tags_raised (audio_file : gmap string TagValue)
    (mapping : list (string * list string)) (metadata : gmap string MetaValue) :
  is_Some (read_tags audio_file mapping metadata).2 ->
  exists i key possible_tags,
    mapping !! i = Some (key, possible_tags)
    /\ first_tag audio_file possible_tags = Some (TagList []).
Proof.
  revert metadata. induction mapping as [|[key possible_tags] mapping IH];
    intros metadata; cbn [read_tags].
  - intros [? [=]].
  - destruct (first_tag audio_file possible_tags) as [value|] eqn:Hfirst.
    + destruct (str_of_tag value) as [text|e] eqn:Hstr.
      * intros (i & k & p & Hi & Hp)%IH. by exists (S i), k, p.
      * intros _. exists 0%nat, key, possible_tags. split; [reflexivity|].
        destruct value as [[|item items]|text]; try discriminate. exact Hfirst.
    + intros (i & k & p & Hi & Hp)%IH. by exists (S i), k, p.
Qed.

Section MetadataFacts.
Context {F : Type} `{PyFloat F}.

(** What [_extract_metadata] returns for a file that mutagen reads. *)
Lemma extract_metadata_read (w : World F) (audio_path : string)
    (audio_file : gmap string TagValue) :
  MutagenFile w audio_path = Ok (Some audio_file) ->
  _extract_metadata w audio_path
  = if decide (is_Some (read_tags audio_file tag_mapping ∅).2)
    then (read_tags audio_file tag_mapping ∅).1
    else handle_year (read_tags audio_file tag_mapping ∅).1.
Proof.
  intros Hfile. unfold _extract_metadata. rewrite Hfile.
  destruct (read_tags audio_file tag_mapping ∅) as [metadata [e|]]; cbn [fst snd].
  - rewrite decide_True by (by eexists). reflexivity.
  - rewrite decide_False by (intros [? [=]]). reflexivity.
Qed.

(** X19: the dict of [_extract_metadata] has no key but title, artist,
    album, genre and year; every value but the year is a text; a year that
    is an int lies between 0 and 9999, and a year that is still a text has
    no four digits in a row. *)
Theorem metadata_entries (w : World F) (audio_path k : string) (v : MetaValue) :
  _extract_metadata w audio_path !! k = Some v ->
  k ∈ ["title"; "artist"; "album"; "genre"; "year"]
  /\ match v with
     | MetaStr text => k = "year" -> search_4_digits text = None
     | MetaInt n => k = "year" /\ 0 <= n <= 9999
     end.
Proof.
  destruct (MutagenFile w audio_path) as [[audio_file|]|e] eqn:Hfile;
    [|unfold _extract_metadata; rewrite Hfile; by rewrite lookup_empty..].
  rewrite (extract_metadata_read _ _ _ Hfile).
  pose proof (read_tags_entries audio_file tag_mapping ∅) as Hentries.
  destruct (decide (is_Some (read_tags audio_file tag_mapping ∅).2)) as [Hraised|Hread].
  - intros Hk. destruct (Hentries k v Hk) as [Hempty|[Hin [text ->]]];
      [by rewrite lookup_empty in Hempty|].
    rewrite tag_mapping_keys in Hin. split; [exact Hin|]. intros ->.
    destruct (read_tags_raised _ _ _ Hraised) as (i & key & possible & Hi & Hfirst).
    destruct (read_tags_stops audio_file tag_mapping ∅ i key possible Hi Hfirst)
      as [_ Hstop].
    assert (i < 5)%nat as Hlt by (apply lookup_lt_Some in Hi; exact Hi).
    assert ("year" ∉ (take i tag_mapping).*1) as Hnot.
    { destruct i as [|[|[|[|[|i]]]]]; try lia; cbn;
        intros Hy; repeat (apply elem_of_cons in Hy as [[=]|Hy]);
        by apply elem_of_nil in Hy. }
    destruct (Hstop "year") as [Heq|[Hnone _]]; [|congruence].
    rewrite Heq, read_tags_other_key, lookup_empty in Hk by exact Hnot. discriminate.
  - unfold handle_year.
    destruct ((read_tags audio_file tag_mapping ∅).1 !! "year") as [[year_str|n]|]
      eqn:Hyear.
    + destruct (search_4_digits year_str) as [digits|] eqn:Hdigits.
      * destruct (decide (k = "year")) as [->|Hne].
        -- rewrite lookup_insert_eq. intros [= <-].
           split; [do 4 apply list_elem_of_further; apply list_elem_of_here|].
           split; [reflexivity|].
           destruct (search_4_digits_Some _ _ Hdigits) as (Hlen & Hall & _).
           by apply int_of_four_digits.
        -- rewrite lookup_insert_ne by done. intros Hk.
           destruct (Hentries k v Hk) as [Hempty|[Hin [text ->]]];
             [by rewrite lookup_empty in Hempty|].
           rewrite tag_mapping_keys in Hin. split; [exact Hin | done].
      * intros Hk. destruct (Hentries k v Hk) as [Hempty|[Hin [text ->]]];
          [by rewrite lookup_empty in Hempty|].
        rewrite tag_mapping_keys in Hin. split; [exact Hin|]. intros ->.
        rewrite Hyear in Hk. injection Hk as ->. exact Hdigits.
    + destruct (Hentries "year" (MetaInt n) Hyear) as [Hempty|[_ [text [=]]]].
      by rewrite lookup_empty in Hempty.
    + intros Hk. destruct (Hentries k v Hk) as [Hempty|[Hin [text ->]]];
        [by rewrite lookup_empty in Hempty|].
      rewrite tag_mapping_keys in Hin. split; [exact Hin|]. intros ->.
      rewrite Hyear in Hk. discriminate.
Qed.

End MetadataFacts.

Lemma tag_mapping_keys_NoDup : NoDup tag_mapping.*1.
Proof. apply (bool_decide_eq_true_1 _). vm_compute. reflexivity. Qed.

(** A key at or after the place [i] is not among the first [i] keys. *)
Lemma later_key_not_before (i j : nat) (key : string) (possible_tags : list string) :
  (i <= j)%nat -> tag_mapping !! j = Some (key, possible_tags) ->
  key ∉ (take i tag_mapping).*1.
Proof.
  intros Hij Hj. rewrite fmap_take. intros (j' & Hj' & Hlt)%elem_of_take.
  assert (tag_mapping.*1 !! j = Some key) as Hkey
    by (rewrite list_lookup_fmap, Hj; reflexivity).
  pose proof (proj1 (NoDup_alt _) tag_mapping_keys_NoDup j' j key Hj' Hkey). lia.
Qed.

Lemma handle_year_other_key (metadata : gmap string MetaValue) (k : string) :
  k <> "year" -> handle_year metadata !! k = metadata !! k.
Proof.
  intros Hne. unfold handle_year.
  destruct (metadata !! "year") as [[year_str|n]|]; try reflexivity.
  destruct (search_4_digits year_str); [|reflexivity].
  by rewrite lookup_insert_ne.
Qed.

(** Without an exception, a key of the mapping holds the text of the first
    of its tags that the file has. *)
Lemma read_tags_lookup (audio_file : gmap string TagValue)
    (mapping : list (string * list string)) (metadata : gmap string MetaValue)
    (i : nat) (key : string) (possible_tags : list string) :
  NoDup mapping.*1 ->
  mapping !! i = Some (key, possible_tags) ->
  (read_tags audio_file mapping metadata).2 = None ->
  (read_tags audio_file mapping metadata).1 !! key
  = match first_tag audio_file possible_tags with
    | Some value => MetaStr <$> tag_text value
    | None => metadata !! key
    end.
Proof.
  revert metadata i. induction mapping as [|[key0 possible0] mapping IH];
    intros metadata i Hnd Hi; [done|].
  rewrite fmap_cons in Hnd. apply NoDup_cons in Hnd as [Hnin Hnd]. cbn [fst] in Hnin.
  cbn [read_tags]. destruct i as [|i].
  - injection Hi as -> ->.
    destruct (first_tag audio_file possible_tags) as [value|].
    + destruct value as [[|item items]|text]; cbn [str_of_tag tag_text snd];
        [discriminate|..]; intros _; rewrite read_tags_other_key by done;
        by rewrite lookup_insert_eq.
    + intros _. by rewrite read_tags_other_key.
  - cbn [lookup list_lookup] in Hi.
    assert (key <> key0) as Hne.
    { intros ->. apply Hnin. apply list_elem_of_fmap. exists (key0, possible_tags).
      split; [reflexivity|]. eapply list_elem_of_lookup_2, Hi. }
    destruct (first_tag audio_file possible0) as [value0|].
    + destruct (str_of_tag value0) as [text0|e]; [|discriminate].
      intros Hnone. rewrite (IH _ i Hnd Hi Hnone).
      destruct (first_tag audio_file possible_tags); [reflexivity|].
      by rewrite lookup_insert_ne.
    + intros Hnone. by rewrite (IH _ i Hnd Hi Hnone).
Qed.

Section MetadataRules.
Context {F : Type} `{PyFloat F}.

(** X20: when no tag chosen holds an empty list, each of title, artist,
    album and genre is the text of the first tag of its list that the file
    has, the first item for a list of values, and is absent when the file
    has none of them. *)
Theorem tag_priority (w : World F) (audio_path : string)
    (audio_file : gmap string TagValue) (i : nat) (key : string)
    (possible_tags : list string) :
  MutagenFile w audio_path = Ok (Some audio_file) ->
  (forall j key' possible', tag_mapping !! j = Some (key', possible') ->
     first_tag audio_file possible' <> Some (TagList [])) ->
  tag_mapping !! i = Some (key, possible_tags) ->
  key <> "year" ->
  _extract_metadata w audio_path !! key
  = first_tag audio_file possible_tags ≫= fun value => MetaStr <$> tag_text value.
Proof.
  intros Hfile Hfull Hi Hkey. rewrite (extract_metadata_read _ _ _ Hfile).
  destruct (decide (is_Some (read_tags audio_file tag_mapping ∅).2)) as [Hraised|Hread].
  - destruct (read_tags_raised _ _ _ Hraised) as (j & key' & possible' & Hj & Hempty).
    by destruct (Hfull j key' possible' Hj).
  - rewrite handle_year_other_key by done.
    rewrite (read_tags_lookup _ _ _ i key possible_tags tag_mapping_keys_NoDup Hi).
    + destruct (first_tag audio_file possible_tags); [reflexivity | apply lookup_empty].
    + destruct ((read_tags audio_file tag_mapping ∅).2) eqn:Hsnd; [|reflexivity].
      exfalso. apply Hread. by eexists.
Qed.

(** X21: an empty list under the tag chosen for a key stops the reading:
    the dict has no entry for this key nor for any key after it in the
    order title, artist, album, genre, year, whatever the file holds for
    them. *)
Theorem empty_tag_list_stops_reading (w : World F) (audio_path : string)
    (audio_file : gmap string TagValue) (i j : nat) (key key' : string)
    (possible_tags possible' : list string) :
  MutagenFile w audio_path = Ok (Some audio_file) ->
  tag_mapping !! i = Some (key, possible_tags) ->
  first_tag audio_file possible_tags = Some (TagList []) ->
  (i <= j)%nat ->
  tag_mapping !! j = Some (key', possible') ->
  _extract_metadata w audio_path !! key' = None.
Proof.
  intros Hfile Hi Hempty Hij Hj. rewrite (extract_metadata_read _ _ _ Hfile).
  destruct (read_tags_stops audio_file tag_mapping ∅ i key possible_tags Hi Hempty)
    as [Hraised Hstop].
  rewrite decide_True by exact Hraised.
  destruct (Hstop key') as [Heq|[Hnone _]]; [|exact Hnone].
  rewrite Heq, read_tags_other_key by (eapply later_key_not_before; eassumption).
  apply lookup_empty.
Qed.

End MetadataRules.

Section RaisingRuns.
Context {F : Type} `{PyFloat F}.

(** A year that [_extract_metadata] leaves as a text has no four digits in
    a row. *)
Lemma year_text_has_no_digits (w : World F) (audio_path text : string) :
  _extract_metadata w audio_path !! "year" = Some (MetaStr text) ->
  search_4_digits text = None.
Proof.
  destruct (MutagenFile w audio_path) as [[audio_file|]|e] eqn:Hfile;
    [|unfold _extract_metadata; rewrite Hfile; by rewrite lookup_empty..].
  rewrite (extract_metadata_read _ _ _ Hfile).
  destruct (decide (is_Some (read_tags audio_file tag_mapping ∅).2)) as [Hraised|Hread].
  - intros Hk.
    destruct (read_tags_raised _ _ _ Hraised) as (i & key & possible & Hi & Hfirst).
    destruct (read_tags_stops audio_file tag_mapping ∅ i key possible Hi Hfirst)
      as [_ Hstop].
    assert (i <= 4)%nat as Hlt by (apply lookup_lt_Some in Hi; cbn in Hi; lia).
    destruct (Hstop "year") as [Heq|[Hnone _]]; [|congruence].
    rewrite Heq, read_tags_other_key, lookup_empty in Hk; [discriminate|].
    by apply (later_key_not_before i 4 "year"
                ["TDRC"; "Date"; copyright_tag "day"; "DATE"]).
  - unfold handle_year.
    destruct ((read_tags audio_file tag_mapping ∅).1 !! "year") as [[year_str|n]|]
      eqn:Hyear; [|rewrite Hyear; discriminate..].
    destruct (search_4_digits year_str) as [digits|] eqn:Hdigits.
    + rewrite lookup_insert_eq. discriminate.
    + rewrite Hyear. by intros [= <-].
Qed.

(** X14: a run raises exactly when the file size, the first or the second
    extractor raises, or, after all of them, the validation of the year
    raises, and then the exception of the first of them that does; the
    validation raises only for a year that the tag reader left as a text,
    which then has no four digits in a row; the chord recognizer and the
    transcription service cannot abort a run. *)
Theorem run_raises_iff (w : World F) (audio_path source : string)
    (source_path : option string) (extract_lyrics : bool) (e : exn) :
  (exists st,
      run_analysis w audio_path source source_path extract_lyrics = (Raise e, st))
  <-> os_path_getsize w audio_path = Raise e
      \/ (exists size, os_path_getsize w audio_path = Ok size
          /\ (librosa_extract_all_features w audio_path = Raise e
              \/ exists answer,
                   librosa_extract_all_features w audio_path = Ok answer
                   /\ (essentia_extract_all_features w audio_path = Raise e
                       \/ exists features text,
                            essentia_extract_all_features w audio_path = Ok features
                            /\ _extract_metadata w audio_path !! "year"
                               = Some (MetaStr text)
                            /\ search_4_digits text = None
                            /\ pydantic_int w text = Raise e))).
Proof.
  assert (validate_year w (_extract_metadata w audio_path !! "year") = Raise e
          <-> exists text,
                _extract_metadata w audio_path !! "year" = Some (MetaStr text)
                /\ search_4_digits text = None
                /\ pydantic_int w text = Raise e) as Hyear.
  { unfold validate_year.
    destruct (_extract_metadata w audio_path !! "year") as [[text|n]|] eqn:Hentry.
    - pose proof (year_text_has_no_digits w audio_path text Hentry) as Hdigits.
      destruct (pydantic_int w text) as [n|e'] eqn:Hint.
      + split; [discriminate | intros (t & [= <-] & _ & Ht); congruence].
      + split.
        * intros [= ->]. by exists text.
        * intros (t & [= <-] & _ & Ht). congruence.
    - split; [discriminate | intros (t & [=] & _)].
    - split; [discriminate | intros (t & [=] & _)]. }
  unfold_run.
  destruct (os_path_getsize w audio_path) as [size|e0].
  2:{ split.
      - intros [st [= ->]]. by left.
      - intros [[= ->] | (? & [=] & _)]. by eexists. }
  destruct (librosa_extract_all_features w audio_path) as [[[lf d] sr]|e0].
  2:{ split.
      - intros [st [= ->]]. right. eexists. split; [reflexivity|]. by left.
      - intros [[=] | (? & _ & [[= ->] | (? & [=] & _)])]. by eexists. }
  destruct (essentia_extract_all_features w audio_path) as [ef|e0].
  2:{ split.
      - intros [st [= ->]]. right. eexists. split; [reflexivity|]. right.
        eexists. split; [reflexivity|]. by left.
      - intros [[=] | (? & _ & [[=] | (? & _ & [[= ->] | (? & ? & [=] & _)])])].
        by eexists. }
  destruct (analyze_returns w audio_path) as [progression ->].
  split.
  - intros [st Hrun].
    assert (validate_year w (_extract_metadata w audio_path !! "year") = Raise e)
      as Hrefused.
    { destruct extract_lyrics;
        [destruct (whisper_client w); [destruct (whisper_create w audio_path None)|]|];
        destruct (validate_year w (_extract_metadata w audio_path !! "year"));
        congruence. }
    apply Hyear in Hrefused as (text & Hentry & Hdigits & Hint).
    right. eexists. split; [reflexivity|]. right.
    eexists. split; [reflexivity|]. right. by exists ef, text.
  - intros [[=] | (? & _ & [[=] | (? & _ & [[=] | (? & text & _ & Hrefused)])])].
    assert (validate_year w (_extract_metadata w audio_path !! "year") = Raise e)
      as -> by (apply Hyear; by exists text).
    destruct extract_lyrics;
      [destruct (whisper_client w); [destruct (whisper_create w audio_path None)|]|];
      by eexists.
Qed.

End RaisingRuns.

Lemma metadata_entries_witness :
  _extract_metadata studio "song.mp3" !! "year" = Some (MetaInt 2019)
  /\ "year" ∈ ["title"; "artist"; "album"; "genre"; "year"]
  /\ 0 <= 2019 <= 9999.
Proof.
  assert (_extract_metadata studio "song.mp3" !! "year" = Some (MetaInt 2019)) as Hyear
    by (vm_compute; reflexivity).
  split; [exact Hyear|].
  destruct (metadata_entries studio "song.mp3" "year" (MetaInt 2019) Hyear)
    as [Hin [_ Hrange]].
  split; assumption.
Defined.

Lemma studio_tags_hold_no_empty_list (j : nat) (key' : string) (possible' : list string) :
  tag_mapping !! j = Some (key', possible') ->
  first_tag studio_tags possible' <> Some (TagList []).
Proof.
  destruct j as [|[|[|[|[|j]]]]]; intros [= <- <-]; vm_compute; discriminate.
Qed.

Lemma tag_priority_witness :
  MutagenFile studio "song.mp3" = Ok (Some studio_tags)
  /\ tag_mapping !! 0%nat
     = Some ("title", ["TIT2"; "Title"; copyright_tag "nam"; "TITLE"])
  /\ _extract_metadata studio "song.mp3" !! "title" = Some (MetaStr "Song").
Proof.
  split; [reflexivity|]. split; [reflexivity|].
  rewrite (tag_priority studio "song.mp3" studio_tags 0 "title"
             ["TIT2"; "Title"; copyright_tag "nam"; "TITLE"]
             eq_refl studio_tags_hold_no_empty_list eq_refl ltac:(discriminate)).
  vm_compute. reflexivity.
Defined.

Lemma empty_tag_list_stops_reading_witness :
  first_tag tags_with_empty_artist ["TPE1"; "Artist"; copyright_tag "ART"; "ARTIST"]
  = Some (TagList [])
  /\ tags_with_empty_artist !! "TALB" = Some (TagText "Album")
  /\ _extract_metadata studio_with_empty_artist "song.mp3" !! "album" = None.
Proof.
  split; [vm_compute; reflexivity|]. split; [vm_compute; reflexivity|].
  apply (empty_tag_list_stops_reading studio_with_empty_artist "song.mp3"
           tags_with_empty_artist 1 2 "artist" "album"
           ["TPE1"; "Artist"; copyright_tag "ART"; "ARTIST"]
           ["TALB"; "Album"; copyright_tag "alb"; "ALBUM"]).
  - reflexivity.
  - reflexivity.
  - vm_compute. reflexivity.
  - lia.
  - reflexivity.
Defined.

(** * Properties of google_drive.py *)

Lemma prefix_nil (s : string) : String.prefix "" s = true.
Proof. by destruct s. Qed.

Lemma append_nil_r (s : string) : s +:+ "" = s.
Proof.
  induction s as [|a s IH]; [reflexivity|].
  change (String a s +:+ "") with (String a (s +:+ "")). by rewrite IH.
Qed.

Lemma append_assoc (s1 s2 s3 : string) : (s1 +:+ s2) +:+ s3 = s1 +:+ (s2 +:+ s3).
Proof.
  induction s1 as [|a s1 IH]; [reflexivity|].
  change ((String a s1 +:+ s2) +:+ s3) with (String a ((s1 +:+ s2) +:+ s3)).
  by rewrite IH.
Qed.

Lemma lacks_app (c : ascii) (x y : string) :
  lacks c (x +:+ y) <-> lacks c x /\ lacks c y.
Proof.
  induction x as [|a x IH]; cbn [lacks]; [cbn; tauto|].
  change (String a x +:+ y) with (String a (x +:+ y)). cbn [lacks]. tauto.
Qed.

Lemma prefix_other_char (c0 a : ascii) (sep s : string) :
  a <> c0 -> String.prefix (String c0 sep) (String a s) = false.
Proof. intros Hne. cbn. destruct (ascii_dec c0 a); [congruence | reflexivity]. Qed.

(** A text without the first character of [sep] does not contain [sep]. *)
Lemma contains_lacks (c0 : ascii) (sep s : string) :
  lacks c0 s -> contains (String c0 sep) s = false.
Proof.
  induction s as [|a s IH]; [reflexivity|]. cbn [lacks]. intros [Hne Hs].
  cbn [contains]. rewrite prefix_other_char by done. by apply IH.
Qed.

Lemma lacks_contains (c0 : ascii) (s : string) :
  contains (String c0 "") s = false -> lacks c0 s.
Proof.
  induction s as [|a s IH]; [done|]. cbn [contains lacks].
  intros [Hp Hs]%orb_false_elim. split; [|by apply IH].
  intros ->. cbn in Hp. destruct (ascii_dec c0 c0); [|done].
  by rewrite prefix_nil in Hp.
Qed.

Lemma split_from_nonempty (sep : string) (skip : nat) (s : string) :
  exists piece pieces, split_from sep skip s = piece :: pieces.
Proof.
  revert skip. induction s as [|a s IH]; intros skip; cbn [split_from]; [by eexists _, _|].
  destruct skip as [|k]; [|apply IH].
  destruct (String.prefix sep (String a s)); [by eexists _, _|].
  destruct (IH 0%nat) as (p & ps & ->). by eexists _, _.
Qed.

(** Splitting at [sep] a text that starts with a part [x] in which [sep]
    cannot start: [x] goes to the first piece. *)
Lemma split_from_app (sep x y : string) :
  (forall x1 a x2, x = x1 +:+ String a x2 ->
     String.prefix sep (String a x2 +:+ y) = false) ->
  exists piece pieces,
    split_from sep 0 y = piece :: pieces
    /\ split_from sep 0 (x +:+ y) = (x +:+ piece) :: pieces.
Proof.
  induction x as [|a x IH]; intros Hfree.
  - destruct (split_from_nonempty sep 0 y) as (p & ps & Hy). by exists p, ps.
  - destruct IH as (p & ps & Hy & Hxy).
    { intros x1 a' x2 ->. apply (Hfree (String a x1) a' x2). reflexivity. }
    exists p, ps. split; [exact Hy|].
    change (String a x +:+ y) with (String a (x +:+ y)). cbn [split_from].
    pose proof (Hfree "" a x eq_refl) as Hp.
    change (String a x +:+ y) with (String a (x +:+ y)) in Hp.
    rewrite Hp, Hxy. reflexivity.
Qed.

Lemma split_from_lacks (c0 : ascii) (sep x y : string) :
  lacks c0 x ->
  exists piece pieces,
    split_from (String c0 sep) 0 y = piece :: pieces
    /\ split_from (String c0 sep) 0 (x +:+ y) = (x +:+ piece) :: pieces.
Proof.
  intros Hx. apply split_from_app. intros x1 a x2 ->.
  apply lacks_app in Hx as [_ [Hne _]].
  change (String a x2 +:+ y) with (String a (x2 +:+ y)). by apply prefix_other_char.
Qed.

(** The first piece of what follows an id with no [c0]: empty, or
    starting with [c0], when a separator [String c0 ""] splits it. *)
Lemma first_piece_of_id (c0 : ascii) (file_id p : string) :
  lacks c0 file_id ->
  p = "" \/ (exists q, p = String c0 q) ->
  py_split (String c0 "") (file_id +:+ p) !! 0%nat = Some file_id.
Proof.
  intros Hid Hp. unfold py_split.
  destruct (split_from_lacks c0 "" file_id p Hid) as (piece & pieces & Hpiece & ->).
  cbn [lookup list_lookup]. f_equal.
  destruct Hp as [->|[q ->]].
  - injection Hpiece as <- _. apply append_nil_r.
  - cbn [split_from] in Hpiece. cbn in Hpiece.
    destruct (ascii_dec c0 c0); [|done]. rewrite prefix_nil in Hpiece.
    injection Hpiece as <- _. apply append_nil_r.
Qed.

(** X25: a link of the form [https://drive.google.com/file/d/ID] or
    [.../file/d/ID/...] gives the ID, for any ID without a slash; an empty
    ID gives the empty string, not [None]. *)
Theorem file_link_gives_id (file_id tail : string) :
  lacks "/" file_id ->
  tail = "" \/ (exists rest, tail = String "/" rest) ->
  extract_file_id_from_url ("https://drive.google.com/file/d/" +:+ file_id +:+ tail)
  = Some file_id.
Proof.
  intros Hid Htail. unfold extract_file_id_from_url.
  rewrite decide_False by discriminate.
  simpl. rewrite prefix_nil. simpl.
  unfold second_then_first, py_split. simpl. rewrite prefix_nil. simpl.
  change ("" +:+ file_id +:+ tail) with (file_id +:+ tail).
  destruct (split_from_lacks "/" "file/d/" file_id tail Hid)
    as (piece & pieces & Hpiece & ->).
  cbn [lookup list_lookup].
  fold (py_split "/" (file_id +:+ piece)).
  rewrite (first_piece_of_id "/" file_id piece Hid); [reflexivity|].
  destruct Htail as [->|[rest ->]].
  - injection Hpiece as <- _. by left.
  - cbn [split_from] in Hpiece.
    destruct (String.prefix "/file/d/" (String "/" rest)).
    + injection Hpiece as <- _. by left.
    + destruct (split_from_nonempty "/file/d/" 0 rest) as (p & ps & Hrest).
      rewrite Hrest in Hpiece. injection Hpiece as <- _. right. by eexists.
Qed.

Lemma file_link_gives_id_witness :
  lacks "/" "1AbC_dEf-9"
  /\ extract_file_id_from_url "https://drive.google.com/file/d/1AbC_dEf-9/view"
     = Some "1AbC_dEf-9".
Proof.
  assert (lacks "/" "1AbC_dEf-9") as Hid by (cbn; repeat split; discriminate).
  split; [exact Hid|].
  exact (file_link_gives_id "1AbC_dEf-9" "/view" Hid (or_intror (ex_intro _ "view" eq_refl))).
Defined.

Lemma prefix_cons (c0 a : ascii) (sep s : string) :
  String.prefix (String c0 sep) (String a s)
  = if decide (c0 = a) then String.prefix sep s else false.
Proof.
  cbn. destruct (ascii_dec c0 a); [by rewrite decide_True | by rewrite decide_False].
Qed.

Lemma append_cons (a : ascii) (x y : string) : String a x +:+ y = String a (x +:+ y).
Proof. reflexivity. Qed.

Lemma append_nil_l (y : string) : "" +:+ y = y.
Proof. reflexivity. Qed.

Lemma prefix_of_nil (c : ascii) (sep : string) : String.prefix (String c sep) "" = false.
Proof. reflexivity. Qed.

(** [id=] cannot start inside an id without [=] that nothing or an [&]
    follows. *)
Lemma id_separator_not_in_id (x y : string) :
  lacks "=" x ->
  y = "" \/ (exists rest, y = String "&" rest) ->
  String.prefix "id=" (x +:+ y) = false.
Proof.
  intros Hx Hy.
  destruct x as [|a [|b [|c x]]]; cbn [lacks] in Hx;
    destruct Hy as [->|[rest ->]];
    rewrite ?append_cons, ?append_nil_l, ?prefix_cons, ?prefix_of_nil;
    repeat case_decide; subst;
    rewrite ?append_cons, ?append_nil_l, ?prefix_cons, ?prefix_of_nil;
    repeat case_decide; subst;
    rewrite ?append_cons, ?append_nil_l, ?prefix_cons, ?prefix_of_nil;
    repeat case_decide; subst;
    try reflexivity; try congruence; exfalso; tauto.
Qed.

Lemma split_from_id (x y : string) :
  lacks "=" x ->
  y = "" \/ (exists rest, y = String "&" rest) ->
  exists piece pieces,
    split_from "id=" 0 y = piece :: pieces
    /\ split_from "id=" 0 (x +:+ y) = (x +:+ piece) :: pieces.
Proof.
  intros Hx Hy. apply split_from_app. intros x1 a x2 ->.
  apply lacks_app in Hx as [_ Hx]. by apply id_separator_not_in_id.
Qed.

(** X26: a link of the form [https://drive.google.com/open?id=ID],
    possibly followed by [&] and further parameters without a slash, gives
    the ID, for any ID without [/], [=] and [&]. *)
Theorem open_link_gives_id (file_id tail : string) :
  lacks "/" file_id -> lacks "=" file_id -> lacks "&" file_id ->
  tail = "" \/ (exists rest, tail = String "&" rest /\ lacks "/" rest) ->
  extract_file_id_from_url ("https://drive.google.com/open?id=" +:+ file_id +:+ tail)
  = Some file_id.
Proof.
  intros Hslash Heq Hamp Htail. unfold extract_file_id_from_url.
  rewrite decide_False by discriminate. simpl.
  change ("" +:+ file_id +:+ tail) with (file_id +:+ tail).
  rewrite (contains_lacks "/" "file/d/").
  2:{ apply lacks_app. split; [exact Hslash|].
      destruct Htail as [->|(rest & -> & Hrest)]; [done|]. split; [discriminate|done]. }
  rewrite prefix_nil. simpl.
  unfold second_then_first, py_split. simpl. rewrite prefix_nil. simpl.
  change ("" +:+ file_id +:+ tail) with (file_id +:+ tail).
  destruct (split_from_id file_id tail Heq) as (piece & pieces & Hpiece & ->).
  { destruct Htail as [->|(rest & -> & _)]; [by left | right; by eexists]. }
  cbn [lookup list_lookup].
  fold (py_split "&" (file_id +:+ piece)).
  rewrite (first_piece_of_id "&" file_id piece Hamp); [reflexivity|].
  destruct Htail as [->|(rest & -> & _)].
  - injection Hpiece as <- _. by left.
  - cbn [split_from] in Hpiece. cbn in Hpiece.
    destruct (split_from_nonempty "id=" 0 rest) as (p & ps & Hrest).
    rewrite Hrest in Hpiece. injection Hpiece as <- _. right. by eexists.
Qed.

Lemma open_link_gives_id_witness :
  lacks "/" "1AbC_dEf-9"
  /\ extract_file_id_from_url "https://drive.google.com/open?id=1AbC_dEf-9&usp=sharing"
     = Some "1AbC_dEf-9".
Proof.
  assert (lacks "/" "1AbC_dEf-9") as Hslash by (cbn; repeat split; discriminate).
  split; [exact Hslash|].
  refine (open_link_gives_id "1AbC_dEf-9" "&usp=sharing" Hslash _ _
            (or_intror (ex_intro _ "usp=sharing" (conj eq_refl _))));
    cbn; repeat split; discriminate.
Defined.

(** X24: a text without [/] and [?] is taken for the ID as it is when it
    has fewer than 50 characters, whatever its characters; with 50
    characters or more it gives nothing, unless it contains [id=]. *)
Theorem bare_id (url : string) :
  url <> "" -> lacks "/" url -> lacks "?" url ->
  ((String.length url < 50)%nat -> extract_file_id_from_url url = Some url)
  /\ ((50 <= String.length url)%nat -> contains "id=" url = false ->
      extract_file_id_from_url url = None).
Proof.
  intros Hne Hslash Hquery. unfold extract_file_id_from_url.
  rewrite decide_False by done.
  rewrite (contains_lacks "/" "" url Hslash), (contains_lacks "?" "" url Hquery).
  rewrite (contains_lacks "/" "file/d/" url Hslash). cbn [negb andb].
  split.
  - intros Hlen. rewrite bool_decide_eq_true_2 by done. reflexivity.
  - intros Hlen Hid. rewrite bool_decide_eq_false_2 by lia. rewrite Hid. reflexivity.
Qed.

Lemma bare_id_witness :
  "1AbC_dEf-9" <> "" /\ extract_file_id_from_url "1AbC_dEf-9" = Some "1AbC_dEf-9".
Proof.
  assert ("1AbC_dEf-9" <> "") as Hne by discriminate.
  split; [exact Hne|].
  refine (proj1 (bare_id "1AbC_dEf-9" Hne _ _) _);
    cbn; try lia; repeat split; discriminate.
Defined.

(** A text that contains [sep] splits into two pieces at least. *)
Lemma split_of_contains (sep s : string) :
  sep <> "" -> contains sep s = true ->
  exists p q pieces, py_split sep s = p :: q :: pieces.
Proof.
  intros Hsep. unfold py_split. induction s as [|a s IH]; cbn [contains split_from].
  - destruct sep; [done | discriminate].
  - destruct (String.prefix sep (String a s)) eqn:Hp.
    + intros _. destruct (split_from_nonempty sep (String.length sep - 1) s)
        as (q & ps & ->). by eexists _, _, _.
    + cbn [orb]. intros (p & q & ps & ->)%IH. by eexists _, _, _.
Qed.

(** X27: [extract_file_id_from_url] gives nothing in two cases only: for
    the empty text, and for a text that is no bare ID and contains neither
    [/file/d/] nor [id=]; the two [IndexError] handlers never run: a text
    that contains the separator always has the piece that is taken. *)
Theorem no_id_iff (url : string) :
  (extract_file_id_from_url url = None
   <-> url = ""
       \/ ((contains "/" url = true \/ contains "?" url = true
            \/ (50 <= String.length url)%nat)
           /\ contains "/file/d/" url = false /\ contains "id=" url = false))
  /\ (contains "/file/d/" url = true ->
      is_Some (second_then_first "/file/d/" "/" url))
  /\ (contains "id=" url = true -> is_Some (second_then_first "id=" "&" url)).
Proof.
  split; [|split].
  2:{ intros Hsep. unfold second_then_first.
      destruct (split_of_contains "/file/d/" url ltac:(discriminate) Hsep)
        as (p & q & ps & ->).
      cbn [lookup list_lookup]. unfold py_split.
      destruct (split_from_nonempty "/" 0 q) as (p' & ps' & ->). by eexists. }
  2:{ intros Hsep. unfold second_then_first.
      destruct (split_of_contains "id=" url ltac:(discriminate) Hsep)
        as (p & q & ps & ->).
      cbn [lookup list_lookup]. unfold py_split.
      destruct (split_from_nonempty "&" 0 q) as (p' & ps' & ->). by eexists. }
  unfold extract_file_id_from_url.
  destruct (decide (url = "")) as [->|Hne]; [split; [by left | done]|].
  destruct (contains "/" url) eqn:Hslash; destruct (contains "?" url) eqn:Hquery;
    cbn [negb andb];
    try destruct (bool_decide (String.length url < 50)%nat) eqn:Hlen;
    try (apply bool_decide_eq_true_1 in Hlen);
    try (apply bool_decide_eq_false_1 in Hlen).
  all: try (split; [discriminate | intros [?|[[[=]|[[=]|?]] _]]; [done | lia]]).
  all: assert ("/file/d/" <> "") as Hsep1 by discriminate;
       assert ("id=" <> "") as Hsep2 by discriminate;
       pose proof (split_of_contains "/file/d/" url Hsep1) as Hpath;
       pose proof (split_of_contains "id=" url Hsep2) as Hid;
       unfold second_then_first;
       destruct (contains "/file/d/" url);
       [destruct (Hpath eq_refl) as (p & q & ps & ->); cbn [lookup list_lookup];
        destruct (split_from_nonempty "/" 0 q) as (p' & ps' & Hq);
        unfold py_split; rewrite Hq; cbn [lookup list_lookup];
        split; [discriminate | intros [?|[_ [[=] _]]]; done]|];
       destruct (contains "id=" url);
       [destruct (Hid eq_refl) as (p & q & ps & ->); cbn [lookup list_lookup];
        destruct (split_from_nonempty "&" 0 q) as (p' & ps' & Hq);
        unfold py_split; rewrite Hq; cbn [lookup list_lookup];
        split; [discriminate | intros [?|[_ [_ [=]]]]; done]|];
       (split; [intros _; right; split; [|done]; first [by left | by right; left | right; right; lia]
               | done]).
Qed.

(** * The file name of the record *)

Lemma basename_from_lacks (acc name : string) :
  lacks "/" name -> basename_from acc name = acc +:+ name.
Proof.
  revert acc. induction name as [|a name IH]; intros acc; cbn [lacks basename_from].
  - intros _. by rewrite append_nil_r.
  - intros [Hne Hname]. rewrite decide_False by done. rewrite IH by done.
    rewrite append_assoc. reflexivity.
Qed.

Lemma basename_from_dir (acc dir name : string) :
  lacks "/" name -> basename_from acc (dir +:+ String "/" name) = name.
Proof.
  intros Hname. revert acc. induction dir as [|a dir IH]; intros acc.
  - rewrite append_nil_l. cbn [basename_from]. rewrite decide_True by done.
    by rewrite basename_from_lacks.
  - rewrite append_cons. cbn [basename_from].
    destruct (decide (a = "/"%char)); apply IH.
Qed.

Lemma basename_from_spec (p acc : string) :
  lacks "/" acc ->
  lacks "/" (basename_from acc p)
  /\ exists dir, acc +:+ p = dir +:+ basename_from acc p
                 /\ (dir = "" \/ exists d, dir = d +:+ "/").
Proof.
  revert acc. induction p as [|a p IH]; intros acc Hacc; cbn [basename_from].
  - split; [exact Hacc|]. exists "". split; [by rewrite append_nil_r | by left].
  - destruct (decide (a = "/"%char)) as [->|Hne].
    + destruct (IH "" I) as (Hlacks & dir & Hp & Hdir). split; [exact Hlacks|].
      exists (acc +:+ String "/" dir). split.
      * rewrite append_assoc, append_cons, <- Hp, append_nil_l. reflexivity.
      * right. destruct Hdir as [->|[d ->]].
        -- by exists acc.
        -- exists (acc +:+ String "/" d). by rewrite append_assoc.
    + destruct (IH (acc +:+ String a "")) as (Hlacks & dir & Hp & Hdir).
      { apply lacks_app. split; [exact Hacc|]. cbn. done. }
      split; [exact Hlacks|]. exists dir. split; [|exact Hdir].
      rewrite <- Hp, append_assoc. reflexivity.
Qed.

Section FileName.
Context {F : Type} `{PyFloat F}.

(** X23: the file name of the record of a successful run is the part of
    the path after its last slash: it has no slash, the path is a
    directory part, empty or ending with a slash, followed by it, and for
    the path [dir/name] with a name without a slash it is [name]. *)
Theorem record_filename (w : World F) (audio_path origin : string)
    (origin_path : option string) (extract_lyrics : bool)
    (record : MusicAnalysis F) (st : RunState) :
  run_analysis w audio_path origin origin_path extract_lyrics = (Ok record, st) ->
  lacks "/" (filename record)
  /\ (exists dir, audio_path = dir +:+ filename record
                  /\ (dir = "" \/ exists d, dir = d +:+ "/"))
  /\ (forall dir name, lacks "/" name -> audio_path = dir +:+ String "/" name ->
        filename record = name).
Proof.
  intros Hrun.
  assert (filename record = basename audio_path) as ->.
  { revert Hrun. run_cases w audio_path; try discriminate;
      (destruct extract_lyrics;
       [destruct (whisper_client w); [destruct (whisper_create w audio_path None)|]|]);
      first [discriminate | by intros [= <- _]]. }
  destruct (basename_from_spec audio_path "" I) as (Hlacks & dir & Hp & Hdir).
  split; [exact Hlacks|]. split; [by exists dir|].
  intros dir' name Hname ->. by apply basename_from_dir.
Qed.

End FileName.

Lemma record_filename_witness :
  exists record st,
    run_analysis studio "/tmp/music_uploads/17.5_song.mp3" "upload" None false
    = (Ok record, st)
    /\ filename record = "17.5_song.mp3".
Proof.
  destruct (run_analysis studio "/tmp/music_uploads/17.5_song.mp3" "upload" None false)
    as [[record|e] st] eqn:Hrun; [|vm_compute in Hrun; discriminate].
  exists record, st. split; [reflexivity|].
  refine (proj2 (proj2 (record_filename studio _ _ _ _ record st Hrun))
            "/tmp/music_uploads" "17.5_song.mp3" _ eq_refl).
  cbn. repeat split; discriminate.
Defined.

(** * Properties of routers/analysis.py *)

(** The files after [open] and after [os.remove]. *)
Lemma opened_exists (path : string) (fs : gset string) : path ∈ {[path]} ∪ fs.
Proof. apply elem_of_union. left. by apply elem_of_singleton. Qed.

Lemma opened_keeps (path : string) (fs : gset string) : fs ⊆ {[path]} ∪ fs.
Proof. intros x Hx. apply elem_of_union. by right. Qed.

Lemma removed_is_gone (path : string) (fs : gset string) : path ∉ fs ∖ {[path]}.
Proof.
  intros [_ Hn]%elem_of_difference. apply Hn. by apply elem_of_singleton.
Qed.

Lemma removed_adds_nothing (path : string) (fs : gset string) : fs ∖ {[path]} ⊆ fs.
Proof. by intros x [Hx _]%elem_of_difference. Qed.

Lemma opened_then_removed (path : string) (fs : gset string) :
  ({[path]} ∪ fs) ∖ {[path]} ⊆ fs.
Proof.
  intros x [[Hx|Hx]%elem_of_union Hn]%elem_of_difference; [|exact Hx].
  by destruct Hn.
Qed.

Section RouteFacts.
Context {F : Type} `{PyFloat F}.

(** The answer 500 of the handler of [Exception]: the temporary file is
    gone and nothing else has changed. *)
Ltac cleaned_up :=
  repeat right; split; [reflexivity|]; split; [by eexists|];
  repeat match goal with
         | |- _ /\ _ => split
         | |- exists _ : string, _ => eexists
         | |- exists _ : gmap string string, _ => eexists
         end;
  first [ eassumption | reflexivity | apply removed_is_gone
        | apply opened_then_removed | apply removed_adds_nothing ].


(** X29: how a request for a Google Drive file ends.  With a response, the
    file ID came out of the URL, the downloaded file exists under the name
    the second read of the metadata gave (the file ID followed by [.audio]
    without one), and the analysis of that file, with the URL as its source
    path, is the one new document.  The errors 400 and 404 change nothing,
    and 404 is only answered when the two reads of the metadata differ.  A
    failed download answers 500 with its own detail and removes no file.
    Any other exception answers 500 with its message after
    [Analysis failed: ], the downloaded file removed and no document and no
    task added.  An exception of [os.makedirs] leaves the route as it is. *)
Theorem drive_outcomes (w : World F) (d : Drive) (rq : DriveRequest)
    (extract_lyrics : bool) (sv : Server F) :
  let result := analyze_from_google_drive w d rq extract_lyrics sv in
  let sv' := result.2 in
  let temp_path (name : string) :=
    path_join (request_upload_dir rq) (request_timestamp rq +:+ "_" +:+ name) in
  match result.1 with
  | Responded response =>
      exists file_id metadata analysis,
        extract_file_id_from_url (file_url rq) = Some file_id
        /\ files_get d 1 file_id = Ok metadata
        /\ response_filename response
           = default (file_id +:+ ".audio") (metadata !! "name")
        /\ (temp_path (response_filename response) ∈ files sv')
        /\ (run_analysis w (temp_path (response_filename response)) "google_drive"
                         (Some (file_url rq)) extract_lyrics).1 = Ok analysis
        /\ documents sv' = documents sv ++ [analysis]
        /\ response_duration response = audio_duration analysis
        /\ background sv'
           = (if request_background_tasks rq
              then background sv ++ [temp_path (response_filename response)]
              else background sv)
  | HttpError h =>
      (status_code h = 400 /\ sv' = sv)
      \/ (status_code h = 404 /\ sv' = sv
          /\ exists file_id,
               extract_file_id_from_url (file_url rq) = Some file_id
               /\ files_get d 0 file_id <> files_get d 1 file_id)
      \/ (status_code h = 500
          /\ detail h = "Failed to download file from Google Drive"
          /\ (files sv ⊆ files sv')
          /\ documents sv' = documents sv /\ background sv' = background sv)
      \/ (status_code h = 500
          /\ (exists e, detail h = "Analysis failed: " +:+ exn_msg e)
          /\ (exists file_id metadata,
                extract_file_id_from_url (file_url rq) = Some file_id
                /\ files_get d 1 file_id = Ok metadata
                /\ temp_path (default (file_id +:+ ".audio") (metadata !! "name"))
                   ∉ files sv')
          /\ (files sv' ⊆ files sv)
          /\ documents sv' = documents sv /\ background sv' = background sv)
  | Uncaught e => request_makedirs rq = Raise e /\ sv' = sv
  end.
Proof.
  cbv zeta. unfold analyze_from_google_drive.
  destruct (extract_file_id_from_url (file_url rq)) as [file_id|] eqn:Hid;
    [|cbn; by left].
  case_decide; [cbn; by left|].
  destruct (is_audio_file d 0 file_id) eqn:Haudio; [|cbn; by left].
  unfold is_audio_file, get_file_metadata in Haudio.
  unfold get_file_metadata.
  destruct (drive_service d) eqn:Hservice; [|discriminate Haudio].
  destruct (files_get d 0 file_id) as [first|e0] eqn:Hfirst; [|discriminate Haudio].
  cbn [no_metadata] in Haudio. case_bool_decide as Hempty; [discriminate Haudio|].
  clear Haudio.
  destruct (files_get d 1 file_id) as [metadata|e1] eqn:Hsecond; cbn [no_metadata].
  - case_bool_decide as Hnone.
    { cbn. right. left. split; [reflexivity|]. split; [reflexivity|].
      exists file_id. split; [reflexivity|]. rewrite Hfirst, Hsecond.
      intros Heq. injection Heq as ->. by apply Hempty. }
    cbn [default from_option id]. unfold drive_attempt.
    destruct (request_makedirs rq) as [[]|e]; [|by cbn].
    unfold download_file. rewrite Hservice.
    destruct (files_get d 2 file_id) as [third|e2];
      [|cbn; right; right; left; by repeat split].
    destruct (file_io d _) as [[]|e3];
      [|cbn; right; right; left; by repeat split].
    destruct (next_chunks d) as [[]|e4];
      [|cbn; right; right; left; repeat split; apply opened_keeps].
    destruct ((run_analysis w _ "google_drive" (Some (file_url rq))
                            extract_lyrics).1) as [analysis|e] eqn:Hrun;
      [|cbn; cleaned_up].
    destruct (request_insert rq) as [analysis_id|e]; cbn; [|cleaned_up].
    exists file_id, metadata, analysis.
    split; [reflexivity|]. split; [exact Hsecond|].
    split; [reflexivity|]. split; [apply opened_exists|].
    split; [exact Hrun|]. done.
  - cbn. right. left. split; [reflexivity|]. split; [reflexivity|].
    exists file_id. split; [reflexivity|]. rewrite Hfirst, Hsecond. discriminate.
Qed.

(** X30: a download that is interrupted after the destination was opened
    answers 500 with the detail of the failed download, and the partial
    file stays: the handler of [HTTPException] raises again before the
    removal, and no task is scheduled for it. *)
Theorem interrupted_download_is_left_behind (w : World F) (d : Drive)
    (rq : DriveRequest) (extract_lyrics : bool) (sv : Server F)
    (file_id : string) (metadata third : gmap string string) (e : exn) :
  let temp_path :=
    path_join (request_upload_dir rq)
              (request_timestamp rq +:+ "_"
               +:+ default (file_id +:+ ".audio") (metadata !! "name")) in
  extract_file_id_from_url (file_url rq) = Some file_id ->
  file_id <> "" ->
  is_audio_file d 0 file_id = true ->
  files_get d 1 file_id = Ok metadata ->
  metadata <> ∅ ->
  request_makedirs rq = Ok () ->
  files_get d 2 file_id = Ok third ->
  file_io d temp_path = Ok () ->
  next_chunks d = Raise e ->
  analyze_from_google_drive w d rq extract_lyrics sv
  = (HttpError (mkHTTPException 500 "Failed to download file from Google Drive"),
     mkServer ({[temp_path]} ∪ files sv) (documents sv) (background sv)).
Proof.
  intros temp_path Hid Hne Haudio Hsecond Hmeta Hdirs Hthird Hopen Hchunk.
  unfold analyze_from_google_drive. rewrite Hid, decide_False, Haudio by exact Hne.
  assert (drive_service d = true) as Hservice.
  { unfold is_audio_file, get_file_metadata in Haudio.
    by destruct (drive_service d). }
  unfold get_file_metadata. rewrite Hservice, Hsecond. cbn [no_metadata].
  rewrite bool_decide_eq_false_2 by exact Hmeta.
  cbn [default from_option id]. unfold drive_attempt, download_file.
  rewrite Hdirs, Hservice, Hthird. fold temp_path. by rewrite Hopen, Hchunk.
Qed.

End RouteFacts.

Lemma interrupted_download_is_left_behind_witness :
  let file_id := "1AbC_dEf-9" in
  let metadata : gmap string string :=
    {["mimeType" := "audio/mpeg"; "name" := "song.mp3"]} in
  let temp_path := "/tmp/music_uploads/1700000000.5_song.mp3" in
  extract_file_id_from_url (file_url drive_request) = Some file_id
  /\ is_audio_file drive_interrupted 0 file_id = true
  /\ metadata <> ∅
  /\ file_io drive_interrupted temp_path = Ok ()
  /\ analyze_from_google_drive studio drive_interrupted drive_request true
                               (mkServer ∅ [] [])
     = (HttpError (mkHTTPException 500 "Failed to download file from Google Drive"),
        mkServer ({[temp_path]} ∪ ∅) [] []).
Proof.
  assert (extract_file_id_from_url (file_url drive_request) = Some "1AbC_dEf-9")
    as Hid by (vm_compute; reflexivity).
  assert (is_audio_file drive_interrupted 0 "1AbC_dEf-9" = true)
    as Haudio by (vm_compute; reflexivity).
  assert (({["mimeType" := "audio/mpeg"; "name" := "song.mp3"]} : gmap string string)
          <> ∅) as Hmeta by apply insert_non_empty.
  split; [exact Hid|]. split; [exact Haudio|]. split; [exact Hmeta|].
  split; [reflexivity|].
  exact (interrupted_download_is_left_behind studio drive_interrupted drive_request
           true (mkServer ∅ [] []) "1AbC_dEf-9" _ _ _
           Hid ltac:(discriminate) Haudio eq_refl Hmeta eq_refl eq_refl eq_refl eq_refl).
Defined.
